(** * op-challenger/fault/service.go: the fault-game service

    A shallow embedding of [NewService], [ValidateAbsolutePrestate] and
    [MonitorGame], together with the pieces of Go they rely on (errors built
    by [fmt.Errorf], [bytes.Equal], goroutines, deferred calls and panics)
    and the Keccak-256 sponge behind go-ethereum's [crypto.Keccak256].

    The packages the service only calls into are collaborators acting on an
    outside world; service code keeps a record of the calls it makes to
    them and of how each ended.  The Scheduler's worker pool, its
    [Schedule] and the game monitor's loop, which live in files of their
    own, are described after the specification in [WorkerPool] and
    [SchedulerModel]. *)

From Stdlib Require Import NArith ZArith List Lia Bool.
From Stdlib.Strings Require Import String Ascii Byte.
From stdpp Require Import gmap list.
Import ListNotations.

Set Default Proof Using "Type".

(** ** Byte slices *)

(** A Go [[]byte].  A nil slice and an empty one are both [[]]: the service
    only hashes and compares slices, and neither operation tells them apart. *)
Abbreviation bytes := (list Byte.byte).

(** [bytes.Equal]: same length and the same bytes. *)
Fixpoint bytes_Equal (a b : bytes) : bool :=
  match a, b with
  | [], [] => true
  | x :: a', y :: b' => Byte.eqb x y && bytes_Equal a' b'
  | _, _ => false
  end.

(** ** Keccak-256

    [crypto.Keccak256] is go-ethereum's wrapper around the legacy Keccak-256
    sponge (rate 136 bytes, domain byte 0x01, 32 bytes of output), written
    here after the Keccak reference: 25 lanes of 64 bits, lane [(x, y)] at
    index [x + 5 * y], bytes little-endian inside a lane. *)
Module Keccak.
Local Open Scope N_scope.

Definition mask64 : N := 0xFFFFFFFFFFFFFFFF.

Definition rotl64 (x n : N) : N :=
  N.land (N.lor (N.shiftl x n) (N.shiftr x (64 - n))) mask64.

Definition not64 (x : N) : N := N.lxor x mask64.

Definition lane (s : list N) (i : nat) : N := nth i s 0.

Definition indices25 : list nat := seq 0 25.

Definition column (s : list N) (x : nat) : N :=
  N.lxor (lane s x)
    (N.lxor (lane s (x + 5))
       (N.lxor (lane s (x + 10)) (N.lxor (lane s (x + 15)) (lane s (x + 20))))).

Definition theta (s : list N) : list N :=
  let d x := N.lxor (column s ((x + 4) mod 5)%nat)
                    (rotl64 (column s ((x + 1) mod 5)%nat) 1) in
  map (fun i => N.lxor (lane s i) (d (i mod 5)%nat)) indices25.

Definition rotation_offsets : list N :=
  [ 0;  1; 62; 28; 27;
   36; 44;  6; 55; 20;
    3; 10; 43; 25; 39;
   41; 45; 15; 21;  8;
   18;  2; 61; 56; 14].

(** rho and pi together: lane [(x, y)] moves to [(y, 2x + 3y)], so the
    lane arriving at [(X, Y)] comes from [((X + 3Y) mod 5, X)]. *)
Definition rho_pi (s : list N) : list N :=
  map (fun j =>
         let X := (j mod 5)%nat in
         let Y := (j / 5)%nat in
         let src := (((X + 3 * Y) mod 5) + 5 * X)%nat in
         rotl64 (lane s src) (nth src rotation_offsets 0))
      indices25.

Definition chi (s : list N) : list N :=
  map (fun i =>
         let x := (i mod 5)%nat in
         let row := (5 * (i / 5))%nat in
         N.lxor (lane s i)
           (N.land (not64 (lane s (row + (x + 1) mod 5)%nat))
                   (lane s (row + (x + 2) mod 5)%nat)))
      indices25.

Definition iota (rc : N) (s : list N) : list N :=
  match s with
  | [] => []
  | a :: s' => N.lxor a rc :: s'
  end.

Definition round_constants : list N :=
  [0x0000000000000001; 0x0000000000008082; 0x800000000000808A;
   0x8000000080008000; 0x000000000000808B; 0x0000000080000001;
   0x8000000080008081; 0x8000000000008009; 0x000000000000008A;
   0x0000000000000088; 0x0000000080008009; 0x000000008000000A;
   0x000000008000808B; 0x800000000000008B; 0x8000000000008089;
   0x8000000000008003; 0x8000000000008002; 0x8000000000000080;
   0x000000000000800A; 0x800000008000000A; 0x8000000080008081;
   0x8000000000008080; 0x0000000080000001; 0x8000000080008008].

Definition round (s : list N) (rc : N) : list N :=
  iota rc (chi (rho_pi (theta s))).

Definition keccak_f1600 (s : list N) : list N :=
  fold_left round round_constants s.

(** The sponge: the state and the write position inside the current
    block of [rate] bytes. *)
Definition rate : nat := 136.

Definition xor_byte (s : list N) (pos : nat) (b : N) : list N :=
  let i := (pos / 8)%nat in
  let sh := 8 * N.of_nat (pos mod 8) in
  firstn i s ++ N.lxor (lane s i) (N.shiftl b sh) :: skipn (S i) s.

Fixpoint absorb (s : list N) (pos : nat) (data : bytes) : list N * nat :=
  match data with
  | [] => (s, pos)
  | b :: data' =>
      let s' := xor_byte s pos (Byte.to_N b) in
      if Nat.eqb (S pos) rate
      then absorb (keccak_f1600 s') 0%nat data'
      else absorb s' (S pos) data'
  end.

(** Padding: the domain byte at the write position, the final bit in the
    last byte of the block. *)
Definition pad_and_permute (s : list N) (pos : nat) : list N :=
  keccak_f1600 (xor_byte (xor_byte s pos 0x01) (rate - 1) 0x80).

Definition byte_of_N (n : N) : Byte.byte :=
  match Byte.of_N (n mod 256) with
  | Some b => b
  | None => Byte.x00
  end.

Definition lane_bytes (l : N) : bytes :=
  map (fun k => byte_of_N (N.shiftr l (8 * N.of_nat k))) (seq 0 8).

Definition squeeze (s : list N) (n : nat) : bytes :=
  firstn n (flat_map lane_bytes s).

Definition initial_state : list N := repeat 0 25.

Definition keccak256 (data : bytes) : bytes :=
  let '(s, pos) := absorb initial_state 0%nat data in
  squeeze (pad_and_permute s pos) 32.
End Keccak.

(** [crypto.Keccak256(data ...[]byte)]: the digest of the slices written one
    after the other. *)
Definition crypto_Keccak256 (data : list bytes) : bytes :=
  Keccak.keccak256 (concat data).

(** Hexadecimal rendering of a byte slice, for reading digests. *)
Definition hex_digit (n : N) : ascii :=
  nth (N.to_nat n)
      (list_ascii_of_string "0123456789abcdef") "?"%char.

Fixpoint hex_of_bytes (bs : bytes) : string :=
  match bs with
  | [] => EmptyString
  | b :: bs' =>
      let n := Byte.to_N b in
      String (hex_digit (n / 16)%N) (String (hex_digit (n mod 16)%N) (hex_of_bytes bs'))
  end.

Definition bytes_of_string (s : string) : bytes := list_byte_of_string s.

Definition hex_value (c : ascii) : N :=
  let n := N_of_ascii c in
  if (48 <=? n)%N && (n <=? 57)%N then n - 48
  else if (97 <=? n)%N && (n <=? 102)%N then n - 87
  else 0.

Fixpoint bytes_of_hex (s : string) : bytes :=
  match s with
  | String hi (String lo rest) =>
      Keccak.byte_of_N (16 * hex_value hi + hex_value lo) :: bytes_of_hex rest
  | _ => []
  end.


(** ** Go errors

    The two error values [fmt.Errorf] builds: [*errors.errorString] when the
    format has no [%w], [*fmt.wrapError] when it wraps one error.  Errors
    coming from collaborators are values of the same type. *)
Inductive error : Type :=
| errorString (s : string)
| wrapError (msg : string) (err : error).

(** The [Error() string] method. *)
Definition Error (e : error) : string :=
  match e with
  | errorString s => s
  | wrapError msg _ => msg
  end.

(** The [Unwrap() error] method; [None] is also the answer for an error
    without that method. *)
Definition Unwrap (e : error) : option error :=
  match e with
  | errorString _ => None
  | wrapError _ err => Some err
  end.

(** The text of a format in which the first [%w] is replaced by [text]. *)
Fixpoint subst_w (format text : string) : string :=
  match format with
  | EmptyString => EmptyString
  | String "%" (String "w" rest) => (text ++ rest)%string
  | String c rest => String c (subst_w rest text)
  end.

(** [fmt.Errorf], for the two shapes the service uses: a format without
    verbs and no operand, or a format with one [%w] and its operand. *)
Definition fmt_Errorf (format : string) (a : option error) : error :=
  match a with
  | None => errorString format
  | Some err => wrapError (subst_w format (Error err)) err
  end.

(** ** Calls, panics and deferred calls *)

(** A [common.Address]: its 20 bytes read as one 160-bit number. *)
Definition Address := N.

(** The two goroutines [NewService] starts. *)
Inductive Goroutine := GoPprofServer | GoMetricsServer.

(** What the service does to its collaborators, in program order. *)
Inductive Call : Type :=
| CallNewMetrics
| CallNewSimpleTxManager
| CallDialEthClientWithTimeout
| CallLoggerInfo (msg : string)
| CallLoggerError (msg : string)
| CallGo (g : Goroutine)
| CallListenAndServe
| CallServe
| CallTxMgrFrom
| CallStartBalanceMetrics
| CallNewDisputeGameFactory
| CallNewGameLoader
| CallNewDiskManager (datadir : string)
| CallNewScheduler (maxConcurrency : N)
| CallNewGameMonitor (gameWindow : Z) (allowlist : list Address)
| CallRecordInfo
| CallRecordUp
| CallAbsolutePreState
| CallFetchAbsolutePrestateHash
| CallSchedulerStart
| CallSchedulerClose
| CallMonitorGames.

(** How a call to a collaborator ended, as the caller sees it: it returned
    (without an error, or with one), or it panicked. *)
Inductive Result : Type :=
| Ok
| Failed (err : error)
| Panic (v : string).

Definition Event : Type := Call * Result.

Definition result_of_error (e : option error) : Result :=
  match e with
  | None => Ok
  | Some err => Failed err
  end.

(** How a Go call ends: it returns, or it panics. *)
Inductive Outcome (A : Type) : Type :=
| Returned (a : A)
| Panicked (v : string).
Arguments Returned {A} a.
Arguments Panicked {A} v.

Section GoMonad.
(** [W] is everything outside the service: the chain, the network, the
    disk, the state of the collaborators. *)
Context {W : Type}.

Record St : Type := mkSt { world : W; calls : list Event }.

(** A collaborator acts on the outside world only. *)
Definition Ext (A : Type) : Type := W -> Outcome A * W.

(** Service code also leaves a record of the calls it makes. *)
Definition M (A : Type) : Type := St -> Outcome A * St.

Definition ret {A} (a : A) : M A := fun s => (Returned a, s).

Definition bind {A B} (c : M A) (k : A -> M B) : M B :=
  fun s =>
    match c s with
    | (Returned a, s') => k a s'
    | (Panicked v, s') => (Panicked v, s')
    end.

(** A call to a collaborator: performed, and noted with the way it
    ended; [failed] reads the error, if any, out of what it returned. *)
Definition call_with {A} (failed : A -> option error) (c : Call) (f : Ext A)
  : M A :=
  fun s =>
    let '(o, w') := f (world s) in
    let r := match o with
             | Returned a => result_of_error (failed a)
             | Panicked v => Panic v
             end in
    (o, {| world := w'; calls := calls s ++ [(c, r)] |}).

(** A collaborator without an error result. *)
Definition call {A} : Call -> Ext A -> M A := call_with (fun _ => None).

(** A collaborator returning [(value, error)]. *)
Definition call_e {A} : Call -> Ext (A * option error) -> M (A * option error) :=
  call_with snd.

(** A collaborator returning [error]. *)
Definition call_err : Call -> Ext (option error) -> M (option error) :=
  call_with id.

(** The body of a Go function: it also carries the function's stack of
    deferred calls, most recent first, which survives a panic. *)
Definition Body (A : Type) : Type :=
  list (M unit) -> St -> Outcome A * list (M unit) * St.

Definition bret {A} (a : A) : Body A := fun ds s => (Returned a, ds, s).

Definition bbind {A B} (c : Body A) (k : A -> Body B) : Body B :=
  fun ds s =>
    match c ds s with
    | (Returned a, ds', s') => k a ds' s'
    | (Panicked v, ds', s') => (Panicked v, ds', s')
    end.

Definition lift {A} (c : M A) : Body A :=
  fun ds s => let '(o, s') := c s in (o, ds, s').

(** [go f()]: the new goroutine runs on its own, so its body is no part of
    the caller's control flow; the caller only notes that it started it. *)
Definition go_ (g : Goroutine) (body : M unit) : M unit :=
  call (CallGo g) (fun w => (Returned tt, w)).

(** [defer f()]: pushed now, run when the function exits. *)
Definition defer_ (d : M unit) : Body unit :=
  fun ds s => (Returned tt, d :: ds, s).

(** The deferred calls run in turn whether the body returned or
    panicked; a deferred call that panics replaces the outcome, and the
    calls below it still run. *)
Fixpoint run_deferred {A} (ds : list (M unit)) (o : Outcome A) (s : St)
  : Outcome A * St :=
  match ds with
  | [] => (o, s)
  | d :: ds' =>
      match d s with
      | (Returned _, s') => run_deferred ds' o s'
      | (Panicked v, s') => run_deferred ds' (Panicked v) s'
      end
  end.

(** A function call: run the body from an empty defer stack, then the
    deferred calls, then hand the outcome to the caller. *)
Definition func {A} (body : Body A) : M A :=
  fun s =>
    let '(o, ds, s') := body [] s in
    run_deferred ds o s'.
End GoMonad.
Arguments St : clear implicits.
Arguments Ext : clear implicits.
Arguments M : clear implicits.
Arguments Body : clear implicits.

Declare Scope go_scope.
Delimit Scope go_scope with go.
Notation "x <- c ;; k" := (bind c (fun x => k))
  (at level 20, c at level 99, k at level 200, only parsing) : go_scope.
Notation "' pat <- c ;; k" := (bind c (fun x => match x with pat => k end))
  (at level 20, pat pattern, c at level 99, k at level 200, only parsing) : go_scope.
Notation "c ;; k" := (bind c (fun _ => k))
  (at level 100, k at level 200, only parsing, right associativity) : go_scope.

Declare Scope body_scope.
Delimit Scope body_scope with body.
Notation "x <- c ;; k" := (bbind c (fun x => k))
  (at level 20, c at level 99, k at level 200, only parsing) : body_scope.
Notation "c ;; k" := (bbind c (fun _ => k))
  (at level 100, k at level 200, only parsing, right associativity) : body_scope.

(** ** The collaborators

    Everything [service.go] imports or calls but does not define.  Their
    types are opaque; their functions act on the outside world and may
    panic. *)
Class ExtTypes : Type := {
  World : Type;
  Ctx : Type;                 (* context.Context *)
  Logger : Type;              (* log.Logger *)
  Clock : Type;               (* clock.Clock *)
  Metrics : Type;             (* *metrics.Metrics *)
  TxMetrics : Type;           (* *metrics.TxMetrics *)
  TxMgrCLIConfig : Type;      (* txmgr.CLIConfig *)
  TxManager : Type;           (* *txmgr.SimpleTxManager *)
  EthClient : Type;           (* *ethclient.Client *)
  DisputeGameFactory : Type;  (* *bindings.DisputeGameFactory *)
  GameLoader : Type;          (* *gameLoader *)
  DiskManager : Type;         (* *diskManager *)
  GamePlayer : Type;          (* scheduler.GamePlayer *)
  Scheduler : Type;           (* *scheduler.Scheduler *)
  GameMonitor : Type;         (* *gameMonitor *)
}.

(** The operands of a log call. *)
Inductive LogValue :=
| LogString (s : string)
| LogInt (z : Z)
| LogError (e : error).

Section Types.
Context `{ExtTypes}.

Record PprofConfig := {
  pprof_Enabled : bool;
  pprof_ListenAddr : string;
  pprof_ListenPort : Z;
}.

Record MetricsConfig := {
  metrics_Enabled : bool;
  metrics_ListenAddr : string;
  metrics_ListenPort : Z;
}.

(** The fields of [config.Config] that [NewService] reads. *)
Record Config := {
  cfg_TxMgrConfig : TxMgrCLIConfig;
  cfg_L1EthRpc : string;
  cfg_PprofConfig : PprofConfig;
  cfg_MetricsConfig : MetricsConfig;
  cfg_GameFactoryAddress : Address;
  cfg_Datadir : string;
  cfg_MaxConcurrency : N;
  cfg_GameWindow : Z;
  cfg_GameAllowlist : list Address;
}.

(** The [types.TraceProvider] method the service calls. *)
Record TraceProvider := {
  AbsolutePreState : Ctx -> Ext World (bytes * option error);
}.

Record Loader := {
  FetchAbsolutePrestateHash : Ctx -> Ext World (bytes * option error);
}.

Record Service := {
  logger : Logger;
  metrics : Metrics;
  monitor : GameMonitor;
  sched : Scheduler;
}.

(** [func(addr common.Address, dir string) (scheduler.GamePlayer, error)] *)
Definition PlayerCreator : Type :=
  Address -> string -> Ext World (GamePlayer * option error).

(** [func(ctx context.Context) (uint64, error)] *)
Definition BlockNumberFetcher : Type :=
  Ctx -> Ext World (N * option error).
End Types.

Class Externals `{ExtTypes} : Type := {
  clock_SystemClock : Clock;
  client_DefaultDialTimeout : Z;
  version_SimpleWithMeta : string;
  metrics_NewMetrics : Ext World Metrics;
  Metrics_TxMetrics : Metrics -> TxMetrics;
  Metrics_StartBalanceMetrics :
    Metrics -> Ctx -> Logger -> EthClient -> Address -> Ext World unit;
  Metrics_RecordInfo : Metrics -> string -> Ext World unit;
  Metrics_RecordUp : Metrics -> Ext World unit;
  txmgr_NewSimpleTxManager :
    string -> Logger -> TxMetrics -> TxMgrCLIConfig ->
    Ext World (TxManager * option error);
  TxManager_From : TxManager -> Ext World Address;
  client_DialEthClientWithTimeout :
    Z -> Logger -> string -> Ext World (EthClient * option error);
  EthClient_BlockNumber : EthClient -> BlockNumberFetcher;
  Logger_Info : Logger -> string -> list LogValue -> Ext World unit;
  Logger_Error : Logger -> string -> list LogValue -> Ext World unit;
  oppprof_ListenAndServe : Ctx -> string -> Z -> Ext World (option error);
  Metrics_Serve : Metrics -> Ctx -> string -> Z -> Ext World (option error);
  bindings_NewDisputeGameFactory :
    Address -> EthClient -> Ext World (DisputeGameFactory * option error);
  NewGameLoader : DisputeGameFactory -> Ext World GameLoader;
  newDiskManager : string -> Ext World DiskManager;
  NewGamePlayer :
    Ctx -> Logger -> Config -> string -> Address -> TxManager -> EthClient ->
    Ext World (GamePlayer * option error);
  scheduler_NewScheduler :
    Logger -> DiskManager -> N -> PlayerCreator -> Ext World Scheduler;
  newGameMonitor :
    Logger -> Clock -> GameLoader -> Scheduler -> Z -> BlockNumberFetcher ->
    list Address -> Ext World GameMonitor;
  Scheduler_Start : Scheduler -> Ctx -> Ext World unit;
  Scheduler_Close : Scheduler -> Ext World (option error);
  GameMonitor_MonitorGames : GameMonitor -> Ctx -> Ext World (option error);
}.

(** ** service.go *)
Section ServiceGo.
Context `{Externals}.
Local Open Scope go_scope.
Local Open Scope string_scope.

(** The goroutine serving pprof: a failure to serve is only logged. *)
Definition pprof_goroutine (ctx : Ctx) (logger : Logger)
    (pprofConfig : PprofConfig) : M World unit :=
  err <- call_err CallListenAndServe
      (oppprof_ListenAndServe ctx (pprof_ListenAddr pprofConfig)
         (pprof_ListenPort pprofConfig)) ;;
  match err with
  | Some err =>
      call (CallLoggerError "error starting pprof")
        (Logger_Error logger "error starting pprof"
           [LogString "err"; LogError err])
  | None => ret tt
  end.

(** The goroutine serving the metrics, likewise. *)
Definition metrics_goroutine (ctx : Ctx) (logger : Logger) (m : Metrics)
    (metricsCfg : MetricsConfig) : M World unit :=
  err <- call_err CallServe
      (Metrics_Serve m ctx (metrics_ListenAddr metricsCfg)
         (metrics_ListenPort metricsCfg)) ;;
  match err with
  | Some err =>
      call (CallLoggerError "error starting metrics server")
        (Logger_Error logger "error starting metrics server"
           [LogString "err"; LogError err])
  | None => ret tt
  end.

(** [NewService] creates a new Service. *)
Definition NewService (ctx : Ctx) (logger : Logger) (cfg : Config)
  : M World (option Service * option error) :=
  let cl := clock_SystemClock in
  m <- call CallNewMetrics metrics_NewMetrics ;;
  '(txMgr, err) <- call_e CallNewSimpleTxManager
      (txmgr_NewSimpleTxManager "challenger" logger (Metrics_TxMetrics m)
         (cfg_TxMgrConfig cfg)) ;;
  match err with
  | Some err =>
      ret (None, Some (fmt_Errorf "failed to create the transaction manager: %w" (Some err)))
  | None =>
  '(client, err) <- call_e CallDialEthClientWithTimeout
      (client_DialEthClientWithTimeout client_DefaultDialTimeout logger
         (cfg_L1EthRpc cfg)) ;;
  match err with
  | Some err => ret (None, Some (fmt_Errorf "failed to dial L1: %w" (Some err)))
  | None =>
  let pprofConfig := cfg_PprofConfig cfg in
  (if pprof_Enabled pprofConfig then
     call (CallLoggerInfo "starting pprof")
       (Logger_Info logger "starting pprof"
          [LogString "addr"; LogString (pprof_ListenAddr pprofConfig);
           LogString "port"; LogInt (pprof_ListenPort pprofConfig)]) ;;
     go_ GoPprofServer (pprof_goroutine ctx logger pprofConfig)
   else ret tt) ;;
  let metricsCfg := cfg_MetricsConfig cfg in
  (if metrics_Enabled metricsCfg then
     call (CallLoggerInfo "starting metrics server")
       (Logger_Info logger "starting metrics server"
          [LogString "addr"; LogString (metrics_ListenAddr metricsCfg);
           LogString "port"; LogInt (metrics_ListenPort metricsCfg)]) ;;
     go_ GoMetricsServer (metrics_goroutine ctx logger m metricsCfg) ;;
     from <- call CallTxMgrFrom (TxManager_From txMgr) ;;
     call CallStartBalanceMetrics
       (Metrics_StartBalanceMetrics m ctx logger client from)
   else ret tt) ;;
  '(factory, err) <- call_e CallNewDisputeGameFactory
      (bindings_NewDisputeGameFactory (cfg_GameFactoryAddress cfg) client) ;;
  match err with
  | Some err =>
      ret (None, Some (fmt_Errorf "failed to bind the fault dispute game factory contract: %w" (Some err)))
  | None =>
  loader <- call CallNewGameLoader (NewGameLoader factory) ;;
  disk <- call (CallNewDiskManager (cfg_Datadir cfg))
            (newDiskManager (cfg_Datadir cfg)) ;;
  sched <- call (CallNewScheduler (cfg_MaxConcurrency cfg))
      (scheduler_NewScheduler logger disk (cfg_MaxConcurrency cfg)
         (fun addr dir => NewGamePlayer ctx logger cfg dir addr txMgr client)) ;;
  monitor <- call (CallNewGameMonitor (cfg_GameWindow cfg) (cfg_GameAllowlist cfg))
      (newGameMonitor logger cl loader sched (cfg_GameWindow cfg)
         (EthClient_BlockNumber client) (cfg_GameAllowlist cfg)) ;;
  call CallRecordInfo (Metrics_RecordInfo m version_SimpleWithMeta) ;;
  call CallRecordUp (Metrics_RecordUp m) ;;
  ret (Some {| logger := logger; metrics := m; monitor := monitor; sched := sched |},
       None)
  end end end.

(** [ValidateAbsolutePrestate] validates the absolute prestate of the
    fault game. *)
Definition ValidateAbsolutePrestate (ctx : Ctx) (trace : TraceProvider)
    (loader : Loader) : M World (option error) :=
  '(providerPrestate, err) <- call_e CallAbsolutePreState
      (AbsolutePreState trace ctx) ;;
  match err with
  | Some err =>
      ret (Some (fmt_Errorf "failed to get the trace provider's absolute prestate: %w" (Some err)))
  | None =>
  let providerPrestateHash := crypto_Keccak256 [providerPrestate] in
  '(onchainPrestate, err) <- call_e CallFetchAbsolutePrestateHash
      (FetchAbsolutePrestateHash loader ctx) ;;
  match err with
  | Some err =>
      ret (Some (fmt_Errorf "failed to get the onchain absolute prestate: %w" (Some err)))
  | None =>
  if negb (bytes_Equal providerPrestateHash onchainPrestate) then
    ret (Some (fmt_Errorf "trace provider's absolute prestate does not match onchain absolute prestate" None))
  else
    ret None
  end end.

(** [MonitorGame] monitors the fault dispute game and attempts to
    progress it. *)
Definition MonitorGame (s : Service) (ctx : Ctx) : M World (option error) :=
  func (
    lift (call CallSchedulerStart (Scheduler_Start (sched s) ctx)) ;;
    defer_ (call_err CallSchedulerClose (Scheduler_Close (sched s)) ;; ret tt)%go ;;
    lift (call_err CallMonitorGames (GameMonitor_MonitorGames (monitor s) ctx))
  )%body.
End ServiceGo.

(** ** Vocabulary of the statements *)
Section Vocabulary.
Context `{ExtTypes}.
Local Open Scope string_scope.
Local Open Scope list_scope.

(** The three formats of [ValidateAbsolutePrestate]. *)
Definition provider_msg : string :=
  "failed to get the trace provider's absolute prestate: %w".
Definition onchain_msg : string :=
  "failed to get the onchain absolute prestate: %w".
Definition mismatch_msg : string :=
  "trace provider's absolute prestate does not match onchain absolute prestate".

(** The two ways a fetch can fail, and the mismatch. *)
Definition fetch_failure ctx (trace : TraceProvider) (loader : Loader)
    (s : St World) : Prop :=
  (exists p e w1,
      AbsolutePreState trace ctx (world s) = (Returned (p, Some e), w1))
  \/ (exists p w1 h e w2,
      AbsolutePreState trace ctx (world s) = (Returned (p, None), w1)
      /\ FetchAbsolutePrestateHash loader ctx w1 = (Returned (h, Some e), w2)).

Definition prestate_mismatch ctx (trace : TraceProvider) (loader : Loader)
    (s : St World) : Prop :=
  exists p w1 h w2,
    AbsolutePreState trace ctx (world s) = (Returned (p, None), w1)
    /\ FetchAbsolutePrestateHash loader ctx w1 = (Returned (h, None), w2)
    /\ crypto_Keccak256 [p] <> h.



End Vocabulary.

(** ** The worker pool of the Scheduler *)
Module WorkerPool.

(** Modelled from the spec: the scheduler package behind
    [scheduler.NewScheduler] is not in service.go.  Section 4.4 gives the
    Scheduler a pool of at most [MaxConcurrency] concurrently executing
    [Progress] steps in which excess ready work waits for a free pool slot:
    here the games whose step is ready and waiting, and the pool slots,
    each free or executing the step of one game. *)
Record State := {
  waiting : list Address;
  pool : list (option Address);
}.

(** Modelled from the spec: the pool created for [MaxConcurrency] (section
    6: it caps the pool size), all slots free, nothing waiting. *)
Definition init (maxConcurrency : nat) : State :=
  {| waiting := []; pool := replicate maxConcurrency None |}.

(** Modelled from the spec: what can happen to the pool (sections 4.4 and
    5): a scheduling tick makes the steps of some games ready, a free pool
    slot takes the first waiting step, an executing step completes. *)
Inductive Action :=
| Tick (ready : list Address)
| Dispatch (i : nat)
| Finish (i : nat).

(** Modelled from the spec: the [Progress] calls executing at the moment. *)
Definition executing (st : State) : list Address := omap id (pool st).

(** Modelled from the spec: one transition, [None] when the action is not
    possible in this state: ready work only queues; a step starts only in
    a free pool slot; only an executing step completes. *)
Definition step (a : Action) (st : State) : option State :=
  match a with
  | Tick ready => Some {| waiting := waiting st ++ ready; pool := pool st |}
  | Dispatch i =>
      match waiting st, pool st !! i with
      | g :: rest, Some None =>
          Some {| waiting := rest; pool := <[i := Some g]> (pool st) |}
      | _, _ => None
      end
  | Finish i =>
      match pool st !! i with
      | Some (Some _) =>
          Some {| waiting := waiting st; pool := <[i := None]> (pool st) |}
      | _ => None
      end
  end.

(** Modelled from the spec: a sequence of transitions, in any
    interleaving. *)
Fixpoint run (acts : list Action) (st : State) : option State :=
  match acts with
  | [] => Some st
  | a :: acts' =>
      match step a st with
      | Some st' => run acts' st'
      | None => None
      end
  end.

End WorkerPool.

(** ** Scheduling ticks and the monitor loop *)
Module SchedulerModel.

(** Modelled from the spec: the last-progress outcome of a PlayerSlot
    (section 3): no step yet, or what the last [Progress] returned. *)
Inductive LastProgress :=
| NotRunYet
| LastReturned (err : option error).

(** Modelled from the spec: what a scheduling tick does, in order; the
    Scheduler and the game monitor are not in service.go. *)
Inductive SchedEvent :=
| EvDirFailed (a : Address) (err : error)
| EvCreateFailed (a : Address) (err : error)
| EvCreated (a : Address)
| EvProgress (a : Address) (err : option error)
| EvReleased (a : Address)
| EvFetchFailed (err : error)
| EvSchedule (games : list Address).

(** Modelled from the spec: a Game (section 3). *)
Record Game := {
  game_address : Address;
  game_created : Z;
}.

(** Modelled from the spec: a GameWindow as computed by the monitor
    (section 4.5), [[head - GameWindow, head]]. *)
Record Window := {
  window_from : Z;
  window_to : Z;
}.

Section Model.
(** The outside world, the player handles, and the collaborators of
    section 6: the player factory with the players' [Progress], the
    DiskManager of section 4.3, and the chain reader's [FetchGames]. *)
Context {W Player : Type}.
Variable createPlayer : Address -> string -> W -> (Player + error) * W.
Variable Progress : Player -> W -> option error * W.
Variable DirFor : Address -> W -> (string + error) * W.
Variable Release : Address -> W -> W.
Variable FetchGames : Window -> W -> (list Game * option error) * W.

(** Modelled from the spec: a PlayerSlot (section 3). *)
Record PlayerSlot := {
  slot_address : Address;
  slot_dir : string;
  slot_player : Player;
  slot_last : LastProgress;
}.

(** Modelled from the spec: first bullet of [Schedule] (section 4.4): for
    each address of the target without a slot, acquire a directory and
    construct a player; on failure, log and skip the address for this
    tick. *)
Fixpoint create_players (games : list Address) (slots : gmap Address PlayerSlot)
    (w : W) : gmap Address PlayerSlot * W * list SchedEvent :=
  match games with
  | [] => (slots, w, [])
  | a :: rest =>
      match slots !! a with
      | Some _ => create_players rest slots w
      | None =>
          match DirFor a w with
          | (inr err, w1) =>
              let '(slots', w', log) := create_players rest slots w1 in
              (slots', w', EvDirFailed a err :: log)
          | (inl dir, w1) =>
              match createPlayer a dir w1 with
              | (inr err, w2) =>
                  let '(slots', w', log) := create_players rest slots w2 in
                  (slots', w', EvCreateFailed a err :: log)
              | (inl p, w2) =>
                  let slot := {| slot_address := a; slot_dir := dir;
                                 slot_player := p; slot_last := NotRunYet |} in
                  let '(slots', w', log) :=
                    create_players rest (<[a := slot]> slots) w2 in
                  (slots', w', EvCreated a :: log)
              end
          end
      end
  end.

(** Modelled from the spec: second bullet of [Schedule] and its failure
    semantics: for each address of the target with a slot, invoke the
    player's [Progress]; an error is logged and the slot is retained, with
    the outcome as its last-progress outcome. *)
Fixpoint progress_players (games : list Address) (slots : gmap Address PlayerSlot)
    (w : W) : gmap Address PlayerSlot * W * list SchedEvent :=
  match games with
  | [] => (slots, w, [])
  | a :: rest =>
      match slots !! a with
      | None => progress_players rest slots w
      | Some slot =>
          let '(err, w1) := Progress (slot_player slot) w in
          let slot' := {| slot_address := slot_address slot;
                          slot_dir := slot_dir slot;
                          slot_player := slot_player slot;
                          slot_last := LastReturned err |} in
          let '(slots', w', log) :=
            progress_players rest (<[a := slot']> slots) w1 in
          (slots', w', EvProgress a err :: log)
      end
  end.

(** Modelled from the spec: third bullet of [Schedule]: each address with
    a slot but absent from the target has its directory released and its
    slot dropped. *)
Definition teardown (games : list Address) (slots : gmap Address PlayerSlot)
    (w : W) : gmap Address PlayerSlot * W * list SchedEvent :=
  let gone := filter (fun a => a ∉ games) (fst <$> map_to_list slots) in
  (filter (fun kv => kv.1 ∈ games) slots,
   foldl (fun w a => Release a w) w gone,
   EvReleased <$> gone).

(** Modelled from the spec: [Schedule(games)] (section 4.4), reconciling
    the full target set of the tick against the existing slots; each
    address is handled once. *)
Definition Schedule (games : list Address) (slots : gmap Address PlayerSlot)
    (w : W) : gmap Address PlayerSlot * W * list SchedEvent :=
  let targets := remove_dups games in
  let '(slots1, w1, log1) := create_players targets slots w in
  let '(slots2, w2, log2) := progress_players targets slots1 w1 in
  let '(slots3, w3, log3) := teardown targets slots2 w2 in
  (slots3, w3, log1 ++ log2 ++ log3).

(** Modelled from the spec: the allowlist filter of the monitor (section
    4.5): if the allowlist is non-empty, drop any address not in it. *)
Definition filter_allowlist (allowlist : list Address) (games : list Address)
  : list Address :=
  match allowlist with
  | [] => games
  | _ :: _ => filter (fun a => a ∈ allowlist) games
  end.

(** Modelled from the spec: one round of the monitor on a new chain head
    (section 4.5): compute the window, fetch the games (on a read error,
    log and wait for the next head), filter by the allowlist, call
    [Schedule]. *)
Definition monitor_tick (gameWindow : Z) (allowlist : list Address) (head : Z)
    (slots : gmap Address PlayerSlot) (w : W)
  : gmap Address PlayerSlot * W * list SchedEvent :=
  let window := {| window_from := head - gameWindow; window_to := head |} in
  match FetchGames window w with
  | ((_, Some err), w1) => (slots, w1, [EvFetchFailed err])
  | ((games, None), w1) =>
      let filtered := filter_allowlist allowlist (game_address <$> games) in
      let '(slots', w2, log) := Schedule filtered slots w1 in
      (slots', w2, EvSchedule filtered :: log)
  end.

(** Modelled from the spec: the monitor loop over the chain heads it is
    notified of before its context is cancelled. *)
Fixpoint monitor_loop (gameWindow : Z) (allowlist : list Address)
    (heads : list Z) (slots : gmap Address PlayerSlot) (w : W)
  : gmap Address PlayerSlot * W * list SchedEvent :=
  match heads with
  | [] => (slots, w, [])
  | head :: heads' =>
      let '(slots1, w1, log1) := monitor_tick gameWindow allowlist head slots w in
      let '(slots2, w2, log2) := monitor_loop gameWindow allowlist heads' slots1 w1 in
      (slots2, w2, log1 ++ log2)
  end.
(** What holds of the slots and of the record of a run when only
    allowlisted games were ever scheduled. *)
Definition within_allowlist (allowlist : list Address)
    (r : gmap Address PlayerSlot * W * list SchedEvent) : Prop :=
  (forall games a, EvSchedule games ∈ r.2 -> a ∈ games -> a ∈ allowlist)
  /\ (forall a, EvCreated a ∈ r.2 -> a ∈ allowlist)
  /\ (forall a, is_Some (r.1.1 !! a) -> a ∈ allowlist).
End Model.

End SchedulerModel.

(** ** A small outside world to run the service in *)
Module Demo.
Local Open Scope string_scope.

(** What the outside world will answer, and how many external actions
    it has seen. *)
Record DemoWorld := {
  txmgr_error : option error;
  dial_error : option error;
  bind_error : option error;
  loop_outcome : Outcome (option error);
  steps : N;
}.

Definition tick (w : DemoWorld) : DemoWorld :=
  {| txmgr_error := txmgr_error w; dial_error := dial_error w;
     bind_error := bind_error w; loop_outcome := loop_outcome w;
     steps := N.succ (steps w) |}.

Definition types : ExtTypes :=
  {| World := DemoWorld; Ctx := unit; Logger := unit; Clock := unit;
     Metrics := unit; TxMetrics := unit; TxMgrCLIConfig := unit;
     TxManager := unit; EthClient := unit; DisputeGameFactory := unit;
     GameLoader := unit; DiskManager := unit; GamePlayer := unit;
     Scheduler := unit; GameMonitor := unit |}.

#[local] Existing Instance types.

Definition answer {A} (a : A) : Ext DemoWorld A :=
  fun w => (Returned a, tick w).

Definition externals : @Externals types :=
  {| clock_SystemClock := tt : @Clock types;
     client_DefaultDialTimeout := 30;
     version_SimpleWithMeta := "v0.0.0";
     metrics_NewMetrics := answer (tt : @Metrics types);
     Metrics_TxMetrics := fun _ => (tt : @TxMetrics types);
     Metrics_StartBalanceMetrics := fun _ _ _ _ _ => answer tt;
     Metrics_RecordInfo := fun _ _ => answer tt;
     Metrics_RecordUp := fun _ => answer tt;
     txmgr_NewSimpleTxManager := fun _ _ _ _ w =>
       (Returned (tt : @TxManager types, txmgr_error w), tick w);
     TxManager_From := fun _ => answer (0xCA11%N : Address);
     client_DialEthClientWithTimeout := fun _ _ _ w =>
       (Returned (tt : @EthClient types, dial_error w), tick w);
     EthClient_BlockNumber := fun _ _ w => (Returned (steps w, None), tick w);
     Logger_Info := fun _ _ _ => answer tt;
     Logger_Error := fun _ _ _ => answer tt;
     oppprof_ListenAndServe := fun _ _ _ => answer None;
     Metrics_Serve := fun _ _ _ _ => answer None;
     bindings_NewDisputeGameFactory := fun _ _ w =>
       (Returned (tt : @DisputeGameFactory types, bind_error w), tick w);
     NewGameLoader := fun _ => answer (tt : @GameLoader types);
     newDiskManager := fun _ => answer (tt : @DiskManager types);
     NewGamePlayer := fun _ _ _ _ _ _ _ =>
       answer (tt : @GamePlayer types, None);
     scheduler_NewScheduler := fun _ _ _ _ => answer (tt : @Scheduler types);
     newGameMonitor := fun _ _ _ _ _ _ _ => answer (tt : @GameMonitor types);
     Scheduler_Start := fun _ _ => answer tt;
     Scheduler_Close := fun _ => answer None;
     GameMonitor_MonitorGames := fun _ _ w => (loop_outcome w, tick w) |}.

(** A healthy world in which the monitor loop ends with [loop]. *)
Definition healthy (loop : Outcome (option error)) : DemoWorld :=
  {| txmgr_error := None; dial_error := None; bind_error := None;
     loop_outcome := loop; steps := 0 |}.


Definition start (w : DemoWorld) : St DemoWorld := mkSt w [].

Definition ctx : Ctx := tt.
Definition log : Logger := tt.

Definition provider_of (p : bytes) (e : option error) : @TraceProvider types :=
  {| AbsolutePreState := fun _ => answer (p, e) |}.

Definition loader_of (h : bytes) (e : option error) : @Loader types :=
  {| FetchAbsolutePrestateHash := fun _ => answer (h, e) |}.

Definition abc : bytes := bytes_of_string "abc".

Definition abc_digest : bytes :=
  bytes_of_hex "4e03657aea45a94fc7d47ba826c8d667c0d1e6e33a64a036ec44f58fa12d6c45".

Definition cfg : @Config types :=
  {| cfg_TxMgrConfig := tt : @TxMgrCLIConfig types;
     cfg_L1EthRpc := "http://localhost:8545";
     cfg_PprofConfig :=
       {| pprof_Enabled := false; pprof_ListenAddr := "0.0.0.0";
          pprof_ListenPort := 6060 |};
     cfg_MetricsConfig :=
       {| metrics_Enabled := true; metrics_ListenAddr := "0.0.0.0";
          metrics_ListenPort := 7300 |};
     cfg_GameFactoryAddress := 0xFAC7%N;
     cfg_Datadir := "/data";
     cfg_MaxConcurrency := 4;
     cfg_GameWindow := 1000;
     cfg_GameAllowlist := [] |}.

Definition service : @Service types :=
  {| logger := tt : @Logger types; metrics := tt : @Metrics types;
     monitor := tt : @GameMonitor types; sched := tt : @Scheduler types |}.

(** A provider whose prestate is "abc" and a chain that holds its
    Keccak-256 digest; a chain that holds the bytes themselves instead;
    a provider that fails. *)
Definition s0 : St DemoWorld := start (healthy (Returned None)).
Definition good_trace : TraceProvider := provider_of abc None.
Definition good_loader : Loader := loader_of abc_digest None.
Definition wrong_loader : Loader := loader_of abc None.
Definition broken_trace : TraceProvider :=
  provider_of [] (Some (errorString "no trace")).

(** The monitor loop ends with an error. *)
Definition loop_error : error := errorString "subscription closed".
Definition s_loop_fails : St DemoWorld :=
  start (healthy (Returned (Some loop_error))).

End Demo.

(** ** A small chain for the scheduler model *)
Module SchedDemo.
Import SchedulerModel.
Local Open Scope string_scope.

(** The world counts the external calls made so far; a player handle is
    the address of its game.  Game 13 cannot be constructed, and the player
    of game 7 fails every [Progress] step. *)
Definition createPlayer (a : Address) (dir : string) (w : nat)
  : (Address + error) * nat :=
  (if N.eqb a 13%N then inr (errorString "bad game") else inl a, S w).

Definition Progress (p : Address) (w : nat) : option error * nat :=
  (if N.eqb p 7%N then Some (errorString "rpc timeout") else None, S w).

Definition DirFor (a : Address) (w : nat) : (string + error) * nat :=
  (inl "/data/game", S w).

Definition Release (a : Address) (w : nat) : nat := S w.

Definition chain_games : list Game :=
  [ {| game_address := 5%N; game_created := 150 |};
    {| game_address := 7%N; game_created := 180 |};
    {| game_address := 9%N; game_created := 210 |} ].

Definition FetchGames (window : Window) (w : nat)
  : (list Game * option error) * nat :=
  ((chain_games, None), S w).

Definition schedule := Schedule createPlayer Progress DirFor Release.

Definition no_slots : gmap Address (@PlayerSlot Address) := ∅.

(** Two ticks with target [[5; 7]], then one with [[5]]. *)
Definition after_tick1 := schedule [5; 7]%N no_slots 0.
Definition after_tick2 := schedule [5; 7]%N after_tick1.1.1 after_tick1.1.2.
Definition after_tick3 := schedule [5]%N after_tick2.1.1 after_tick2.1.2.

Definition monitor :=
  monitor_loop createPlayer Progress DirFor Release FetchGames.

(** Two heads with only game 5 allowlisted. *)
Definition allowlisted_run := monitor 100 [5]%N [200; 201]%Z no_slots 0.

(** A pool of two with three ready steps: two execute, one waits. *)
Definition busy_pool : WorkerPool.State :=
  {| WorkerPool.waiting := [3]%N; WorkerPool.pool := [Some 1; Some 2]%N |}.
Definition busy_pool_history : list WorkerPool.Action :=
  [WorkerPool.Tick [1; 2; 3]%N; WorkerPool.Dispatch 0; WorkerPool.Dispatch 1].
End SchedDemo.

(** ** The record of a construction *)
Section StartupRecord.
Context `{ExtTypes}.
Local Open Scope string_scope.

(** The first three calls of [NewService], all having returned without
    error. *)
Definition dialled : list Event :=
  [(CallNewMetrics, Ok); (CallNewSimpleTxManager, Ok);
   (CallDialEthClientWithTimeout, Ok)].

(** What [NewService] does for pprof when the configuration enables it. *)
Definition pprof_calls (cfg : Config) : list Event :=
  if pprof_Enabled (cfg_PprofConfig cfg)
  then [(CallLoggerInfo "starting pprof", Ok); (CallGo GoPprofServer, Ok)]
  else [].

(** What it does for the metrics when the configuration enables them. *)
Definition metrics_calls (cfg : Config) : list Event :=
  if metrics_Enabled (cfg_MetricsConfig cfg)
  then [(CallLoggerInfo "starting metrics server", Ok);
        (CallGo GoMetricsServer, Ok); (CallTxMgrFrom, Ok);
        (CallStartBalanceMetrics, Ok)]
  else [].

(** What it does once the factory contract is bound. *)
Definition construction_calls (cfg : Config) : list Event :=
  [(CallNewGameLoader, Ok);
   (CallNewDiskManager (cfg_Datadir cfg), Ok);
   (CallNewScheduler (cfg_MaxConcurrency cfg), Ok);
   (CallNewGameMonitor (cfg_GameWindow cfg) (cfg_GameAllowlist cfg), Ok);
   (CallRecordInfo, Ok); (CallRecordUp, Ok)].
End StartupRecord.

(** ** An outside world in which any collaborator may fail or panic *)
Module Lab.
Local Open Scope string_scope.

(** How each fallible collaborator will end, and how many external actions
    the world has seen. *)
Record LabWorld := {
  txmgr_outcome : Outcome (option error);
  dial_outcome : Outcome (option error);
  bind_outcome : Outcome (option error);
  serve_outcome : Outcome (option error);
  start_outcome : Outcome unit;
  loop_outcome : Outcome (option error);
  close_outcome : Outcome (option error);
  steps : N;
}.

Definition tick (w : LabWorld) : LabWorld :=
  {| txmgr_outcome := txmgr_outcome w; dial_outcome := dial_outcome w;
     bind_outcome := bind_outcome w; serve_outcome := serve_outcome w;
     start_outcome := start_outcome w; loop_outcome := loop_outcome w;
     close_outcome := close_outcome w; steps := N.succ (steps w) |}.

Definition types : ExtTypes :=
  {| World := LabWorld; Ctx := unit; Logger := unit; Clock := unit;
     Metrics := unit; TxMetrics := unit; TxMgrCLIConfig := unit;
     TxManager := unit; EthClient := unit; DisputeGameFactory := unit;
     GameLoader := unit; DiskManager := unit; GamePlayer := unit;
     Scheduler := unit; GameMonitor := unit |}.

#[local] Existing Instance types.

Definition answer {A} (a : A) : Ext LabWorld A :=
  fun w => (Returned a, tick w).

Definition with_value {A} (a : A) (o : Outcome (option error))
  : Outcome (A * option error) :=
  match o with
  | Returned e => Returned (a, e)
  | Panicked v => Panicked v
  end.

Definition externals : @Externals types :=
  {| clock_SystemClock := tt : @Clock types;
     client_DefaultDialTimeout := 30;
     version_SimpleWithMeta := "v0.0.0";
     metrics_NewMetrics := answer (tt : @Metrics types);
     Metrics_TxMetrics := fun _ => (tt : @TxMetrics types);
     Metrics_StartBalanceMetrics := fun _ _ _ _ _ => answer tt;
     Metrics_RecordInfo := fun _ _ => answer tt;
     Metrics_RecordUp := fun _ => answer tt;
     txmgr_NewSimpleTxManager := fun _ _ _ _ w =>
       (with_value (tt : @TxManager types) (txmgr_outcome w), tick w);
     TxManager_From := fun _ => answer (0xCA11%N : Address);
     client_DialEthClientWithTimeout := fun _ _ _ w =>
       (with_value (tt : @EthClient types) (dial_outcome w), tick w);
     EthClient_BlockNumber := fun _ _ w => (Returned (steps w, None), tick w);
     Logger_Info := fun _ _ _ => answer tt;
     Logger_Error := fun _ _ _ => answer tt;
     oppprof_ListenAndServe := fun _ _ _ w => (serve_outcome w, tick w);
     Metrics_Serve := fun _ _ _ _ w => (serve_outcome w, tick w);
     bindings_NewDisputeGameFactory := fun _ _ w =>
       (with_value (tt : @DisputeGameFactory types) (bind_outcome w), tick w);
     NewGameLoader := fun _ => answer (tt : @GameLoader types);
     newDiskManager := fun _ => answer (tt : @DiskManager types);
     NewGamePlayer := fun _ _ _ _ _ _ _ =>
       answer (tt : @GamePlayer types, None);
     scheduler_NewScheduler := fun _ _ _ _ => answer (tt : @Scheduler types);
     newGameMonitor := fun _ _ _ _ _ _ _ => answer (tt : @GameMonitor types);
     Scheduler_Start := fun _ _ w => (start_outcome w, tick w);
     Scheduler_Close := fun _ w => (close_outcome w, tick w);
     GameMonitor_MonitorGames := fun _ _ w => (loop_outcome w, tick w) |}.

Definition ctx : Ctx := tt.
Definition log : Logger := tt.
Definition metrics_handle : Metrics := tt.

(** Nothing fails. *)
Definition calm : LabWorld :=
  {| txmgr_outcome := Returned None; dial_outcome := Returned None;
     bind_outcome := Returned None; serve_outcome := Returned None;
     start_outcome := Returned tt; loop_outcome := Returned None;
     close_outcome := Returned None; steps := 0 |}.

(** The signer cannot be set up. *)
Definition no_signer : LabWorld :=
  {| txmgr_outcome := Returned (Some (errorString "no private key"));
     dial_outcome := Returned None;
     bind_outcome := Returned None; serve_outcome := Returned None;
     start_outcome := Returned tt; loop_outcome := Returned None;
     close_outcome := Returned None; steps := 0 |}.

(** No contract code at the factory address. *)
Definition no_factory : LabWorld :=
  {| txmgr_outcome := Returned None; dial_outcome := Returned None;
     bind_outcome := Returned (Some (errorString "no contract code"));
     serve_outcome := Returned None;
     start_outcome := Returned tt; loop_outcome := Returned None;
     close_outcome := Returned None; steps := 0 |}.


(** The port of the servers is taken. *)
Definition port_taken : LabWorld :=
  {| txmgr_outcome := Returned None; dial_outcome := Returned None;
     bind_outcome := Returned None;
     serve_outcome := Returned (Some (errorString "address already in use"));
     start_outcome := Returned tt; loop_outcome := Returned None;
     close_outcome := Returned None; steps := 0 |}.

(** The scheduler cannot start. *)
Definition start_panics : LabWorld :=
  {| txmgr_outcome := Returned None; dial_outcome := Returned None;
     bind_outcome := Returned None; serve_outcome := Returned None;
     start_outcome := Panicked "already started";
     loop_outcome := Returned None;
     close_outcome := Returned None; steps := 0 |}.

(** The monitor loop ends with an error and closing the scheduler panics. *)
Definition close_panics : LabWorld :=
  {| txmgr_outcome := Returned None; dial_outcome := Returned None;
     bind_outcome := Returned None; serve_outcome := Returned None;
     start_outcome := Returned tt;
     loop_outcome := Returned (Some (errorString "subscription closed"));
     close_outcome := Panicked "close of closed channel"; steps := 0 |}.

Definition start (w : LabWorld) : St LabWorld := mkSt w [].

(** Both servers enabled. *)
Definition cfg : @Config types :=
  {| cfg_TxMgrConfig := tt : @TxMgrCLIConfig types;
     cfg_L1EthRpc := "http://localhost:8545";
     cfg_PprofConfig :=
       {| pprof_Enabled := true; pprof_ListenAddr := "127.0.0.1";
          pprof_ListenPort := 6060 |};
     cfg_MetricsConfig :=
       {| metrics_Enabled := true; metrics_ListenAddr := "127.0.0.1";
          metrics_ListenPort := 7300 |};
     cfg_GameFactoryAddress := 0xFAC7%N;
     cfg_Datadir := "/data";
     cfg_MaxConcurrency := 2;
     cfg_GameWindow := 3600;
     cfg_GameAllowlist := [0xA1; 0xB2]%N |}.

Definition service : @Service types :=
  {| logger := tt : @Logger types; metrics := tt : @Metrics types;
     monitor := tt : @GameMonitor types; sched := tt : @Scheduler types |}.

Definition abc_trace : TraceProvider :=
  {| AbsolutePreState := fun _ => answer (Demo.abc, None) |}.
Definition abc_loader : Loader :=
  {| FetchAbsolutePrestateHash := fun _ => answer (Demo.abc_digest, None) |}.
Definition failing_loader : Loader :=
  {| FetchAbsolutePrestateHash := fun _ =>
       answer (Demo.abc_digest, Some (errorString "execution reverted")) |}.

(** What [NewService] answers when the factory cannot be bound, and when
    the signer cannot be set up. *)
Definition bind_failure : error :=
  wrapError "failed to bind the fault dispute game factory contract: no contract code"
            (errorString "no contract code").
Definition signer_failure : error :=
  wrapError "failed to create the transaction manager: no private key"
            (errorString "no private key").
End Lab.

(** * Properties *)

Lemma bytes_Equal_refl (a : bytes) : bytes_Equal a a = true.
Proof.
  induction a as [|x a IH]; simpl; [reflexivity|].
  rewrite IH, andb_true_r. now apply Byte.byte_dec_lb.
Qed.

Lemma bytes_Equal_eq (a b : bytes) : bytes_Equal a b = true <-> a = b.
Proof.
  split; [|intros ->; apply bytes_Equal_refl].
  revert b; induction a as [|x a IH]; intros [|y b]; simpl; try discriminate.
  - reflexivity.
  - intros [Hxy Hab]%andb_true_iff.
    apply Byte.byte_dec_bl in Hxy. apply IH in Hab. congruence.
Qed.

Lemma bytes_Equal_neq (a b : bytes) : bytes_Equal a b = false <-> a <> b.
Proof.
  rewrite <- bytes_Equal_eq. destruct (bytes_Equal a b); split; congruence.
Qed.

(** The permutation always leaves 25 lanes, so a digest has 32 bytes. *)
Lemma round_length (s : list N) (rc : N) : length (Keccak.round s rc) = 25.
Proof.
  unfold Keccak.round, Keccak.chi.
  destruct (map _ Keccak.indices25) as [|a l] eqn:E;
    apply (f_equal (@length N)) in E;
    rewrite length_map in E; cbn in E; [discriminate|].
  cbn. exact (eq_sym E).
Qed.

Lemma keccak_f1600_length (s : list N) : length (Keccak.keccak_f1600 s) = 25.
Proof.
  unfold Keccak.keccak_f1600, Keccak.round_constants.
  cbn [fold_left]. apply round_length.
Qed.

Lemma keccak256_length (data : bytes) : length (Keccak.keccak256 data) = 32.
Proof.
  unfold Keccak.keccak256.
  destruct (Keccak.absorb Keccak.initial_state 0 data) as [s pos].
  unfold Keccak.squeeze, Keccak.pad_and_permute.
  apply firstn_length_le.
  rewrite (flat_map_constant_length (c := 8)).
  - rewrite keccak_f1600_length. cbn. lia.
  - intros l _. unfold Keccak.lane_bytes. now rewrite length_map, length_seq.
Qed.

(** The digests of the empty input and of "abc" are the published
    Keccak-256 ones (SHA3-256 would give a7ffc6f8... and 3a985da7...). *)
Lemma keccak256_empty :
  hex_of_bytes (crypto_Keccak256 [[]])
  = "c5d2460186f7233c927e7db2dcc703c0e500b653ca82273b7bfad8045d85a470"%string.
Proof. vm_compute. reflexivity. Qed.

Lemma keccak256_abc :
  hex_of_bytes (crypto_Keccak256 [bytes_of_string "abc"])
  = "4e03657aea45a94fc7d47ba826c8d667c0d1e6e33a64a036ec44f58fa12d6c45"%string.
Proof. vm_compute. reflexivity. Qed.

(** A variadic call with the data split over several slices hashes their
    concatenation. *)
Lemma crypto_Keccak256_concat (a b : bytes) :
  crypto_Keccak256 [a; b] = crypto_Keccak256 [a ++ b].
Proof. unfold crypto_Keccak256. cbn. now rewrite !app_nil_r. Qed.

Lemma string_app_empty_r (s : string) : (s ++ "")%string = s.
Proof.
  induction s as [|c s IH]; [reflexivity|].
  change (String c (s ++ "")%string = String c s). now rewrite IH.
Qed.

Section ValidateProperties.
Context `{Externals}.
Local Open Scope string_scope.
Local Open Scope list_scope.

(** One run of [ValidateAbsolutePrestate], case by case. *)
Lemma ValidateAbsolutePrestate_run ctx trace loader (s : St World) :
  ValidateAbsolutePrestate ctx trace loader s =
  match AbsolutePreState trace ctx (world s) with
  | (Panicked v, w1) =>
      (Panicked v, mkSt w1 (calls s ++ [(CallAbsolutePreState, Panic v)]))
  | (Returned (_, Some e), w1) =>
      (Returned (Some (fmt_Errorf provider_msg (Some e))),
       mkSt w1 (calls s ++ [(CallAbsolutePreState, Failed e)]))
  | (Returned (p, None), w1) =>
      let log r := calls s ++ [(CallAbsolutePreState, Ok);
                               (CallFetchAbsolutePrestateHash, r)] in
      match FetchAbsolutePrestateHash loader ctx w1 with
      | (Panicked v, w2) => (Panicked v, mkSt w2 (log (Panic v)))
      | (Returned (_, Some e), w2) =>
          (Returned (Some (fmt_Errorf onchain_msg (Some e))),
           mkSt w2 (log (Failed e)))
      | (Returned (h, None), w2) =>
          (Returned (if bytes_Equal (crypto_Keccak256 [p]) h then None
                     else Some (fmt_Errorf mismatch_msg None)),
           mkSt w2 (log Ok))
      end
  end.
Proof.
  unfold ValidateAbsolutePrestate, bind, call_e, call_with, ret.
  destruct (AbsolutePreState trace ctx (world s)) as [[[p [e|]]|v] w1];
    cbn [world calls snd result_of_error]; try reflexivity.
  destruct (FetchAbsolutePrestateHash loader ctx w1) as [[[h [e|]]|v] w2];
    cbn [snd result_of_error]; rewrite <- app_assoc; cbn [app];
    try reflexivity.
  destruct (bytes_Equal (crypto_Keccak256 [p]) h); reflexivity.
Qed.

(** C1.  When the trace provider and the loader both return without
    error, [ValidateAbsolutePrestate] returns nil exactly when the Keccak
    digest of the provider's bytes is, byte for byte, the slice the loader
    returned; when they differ it returns an error. *)
Theorem ValidateAbsolutePrestate_nil_iff_hash_equal
    ctx trace loader (s : St World) p w1 h w2 :
  AbsolutePreState trace ctx (world s) = (Returned (p, None), w1) ->
  FetchAbsolutePrestateHash loader ctx w1 = (Returned (h, None), w2) ->
  (fst (ValidateAbsolutePrestate ctx trace loader s) = Returned None
     <-> crypto_Keccak256 [p] = h)
  /\ (crypto_Keccak256 [p] <> h ->
      exists e, fst (ValidateAbsolutePrestate ctx trace loader s) = Returned (Some e)).
Proof.
  intros Hp Hh. rewrite ValidateAbsolutePrestate_run, Hp. cbn zeta. rewrite Hh.
  cbn [fst]. split.
  - rewrite <- bytes_Equal_eq.
    destruct (bytes_Equal (crypto_Keccak256 [p]) h); split; congruence.
  - intros Hne%bytes_Equal_neq. rewrite Hne. eauto.
Qed.

Lemma provider_error_wrapped (e : error) :
  fmt_Errorf provider_msg (Some e) =
  wrapError ("failed to get the trace provider's absolute prestate: " ++ Error e)%string e.
Proof.
  unfold fmt_Errorf. f_equal. cbn [subst_w provider_msg onchain_msg].
  now rewrite string_app_empty_r.
Qed.

Lemma onchain_error_wrapped (e : error) :
  fmt_Errorf onchain_msg (Some e) =
  wrapError ("failed to get the onchain absolute prestate: " ++ Error e)%string e.
Proof.
  unfold fmt_Errorf. f_equal. cbn [subst_w provider_msg onchain_msg].
  now rewrite string_app_empty_r.
Qed.

(** C4.  The error returned for a prestate mismatch is never the error
    returned for a failed fetch: the two differ as values and in their
    message, and only the fetch failure wraps a cause. *)
Theorem mismatch_error_distinct_from_fetch_errors
    ctx trace loader (s : St World) ctx' trace' loader' (s' : St World) :
  prestate_mismatch ctx trace loader s ->
  fetch_failure ctx' trace' loader' s' ->
  exists e_mismatch e_fetch,
    fst (ValidateAbsolutePrestate ctx trace loader s) = Returned (Some e_mismatch)
    /\ fst (ValidateAbsolutePrestate ctx' trace' loader' s') = Returned (Some e_fetch)
    /\ e_mismatch <> e_fetch
    /\ Error e_mismatch <> Error e_fetch
    /\ Error e_mismatch = mismatch_msg
    /\ Unwrap e_mismatch = None
    /\ (exists cause, Unwrap e_fetch = Some cause).
Proof.
  intros (p & w1 & h & w2 & Hp & Hh & Hne) Hfail.
  apply bytes_Equal_neq in Hne.
  exists (fmt_Errorf mismatch_msg None).
  assert (Hm : fst (ValidateAbsolutePrestate ctx trace loader s)
               = Returned (Some (fmt_Errorf mismatch_msg None))).
  { rewrite ValidateAbsolutePrestate_run, Hp. cbn zeta. rewrite Hh, Hne. reflexivity. }
  destruct Hfail as [(p' & e & w1' & Hp') | (p' & w1' & h' & e & w2' & Hp' & Hh')].
  - exists (fmt_Errorf provider_msg (Some e)). split; [exact Hm|]. split.
    { rewrite ValidateAbsolutePrestate_run, Hp'. reflexivity. }
    rewrite provider_error_wrapped. cbn.
    repeat split; try discriminate; eauto.
  - exists (fmt_Errorf onchain_msg (Some e)). split; [exact Hm|]. split.
    { rewrite ValidateAbsolutePrestate_run, Hp'. cbn zeta. rewrite Hh'. reflexivity. }
    rewrite onchain_error_wrapped. cbn.
    repeat split; try discriminate; eauto.
Qed.


(** C9.  The trace provider is asked first.  If it returns an error,
    that error comes back wrapped and the loader is not called at all:
    the only call on record is the provider's and the world is as the
    provider left it.  A call to the loader is on record only when the
    provider returned without error, and then it comes second. *)
Theorem ValidateAbsolutePrestate_provider_first
    ctx trace loader (s : St World) :
  let r := ValidateAbsolutePrestate ctx trace loader s in
  (exists res rest, calls (snd r) = calls s ++ (CallAbsolutePreState, res) :: rest)
  /\ (forall p e w1,
        AbsolutePreState trace ctx (world s) = (Returned (p, Some e), w1) ->
        r = (Returned (Some (fmt_Errorf provider_msg (Some e))),
             mkSt w1 (calls s ++ [(CallAbsolutePreState, Failed e)]))
        /\ Unwrap (fmt_Errorf provider_msg (Some e)) = Some e)
  /\ (forall pre res post,
        calls (snd r)
        = calls s ++ pre ++ (CallFetchAbsolutePrestateHash, res) :: post ->
        pre = [(CallAbsolutePreState, Ok)] /\ post = []
        /\ exists p w1,
             AbsolutePreState trace ctx (world s) = (Returned (p, None), w1)).
Proof.
  cbn zeta. rewrite ValidateAbsolutePrestate_run.
  destruct (AbsolutePreState trace ctx (world s)) as [[[p [e|]]|v] w1] eqn:Hp.
  - split; [cbn; eauto|]. split.
    + intros p' e' w1' [= -> -> ->]. split; reflexivity.
    + cbn [snd calls]. intros pre res post Heq%app_inv_head.
      destruct pre as [|c [|c' pre]]; discriminate.
  - cbn zeta.
    destruct (FetchAbsolutePrestateHash loader ctx w1) as [[[h [e|]]|v] w2];
      cbn [snd calls];
      (split; [eauto|]; split; [intros ? ? ? [=]|]);
      intros pre res post Heq%app_inv_head;
      (destruct pre as [|c [|c' pre]]; cbn in Heq; try discriminate;
       [injection Heq as <- _ <-; eauto | destruct pre; discriminate]).
  - split; [cbn; eauto|]. split; [intros ? ? ? [=]|].
    cbn [snd calls]. intros pre res post Heq%app_inv_head.
    destruct pre as [|c [|c' pre]]; discriminate.
Qed.
(** X1.  When the provider has answered and the loader's fetch fails, the
    error handed back is the loader's error wrapped behind "failed to get
    the onchain absolute prestate: ", both calls are on record, and no
    comparison takes place: the bytes that came with the error do not
    matter, not even if they are the right digest. *)
Theorem ValidateAbsolutePrestate_loader_error_wrapped
    ctx trace loader (s : St World) p w1 h e w2 :
  AbsolutePreState trace ctx (world s) = (Returned (p, None), w1) ->
  FetchAbsolutePrestateHash loader ctx w1 = (Returned (h, Some e), w2) ->
  exists err,
    ValidateAbsolutePrestate ctx trace loader s
    = (Returned (Some err),
       mkSt w2 (calls s ++ [(CallAbsolutePreState, Ok);
                            (CallFetchAbsolutePrestateHash, Failed e)]))
    /\ Error err = ("failed to get the onchain absolute prestate: " ++ Error e)%string
    /\ Unwrap err = Some e.
Proof.
  intros Hp Hh. rewrite ValidateAbsolutePrestate_run, Hp. cbn zeta. rewrite Hh.
  rewrite onchain_error_wrapped. eexists. split; [reflexivity|]. now split.
Qed.


(** X3.  A nil result is never a shortcut: if [ValidateAbsolutePrestate]
    returns nil then the provider and the loader were each called once and
    both returned without error, the loader's bytes are the Keccak-256
    digest of the provider's, and so 32 bytes long. *)
Theorem ValidateAbsolutePrestate_nil_only_if_hash_equal
    ctx trace loader (s : St World) :
  fst (ValidateAbsolutePrestate ctx trace loader s) = Returned None ->
  exists p w1 h w2,
    AbsolutePreState trace ctx (world s) = (Returned (p, None), w1)
    /\ FetchAbsolutePrestateHash loader ctx w1 = (Returned (h, None), w2)
    /\ h = Keccak.keccak256 p
    /\ length h = 32
    /\ snd (ValidateAbsolutePrestate ctx trace loader s)
       = mkSt w2 (calls s ++ [(CallAbsolutePreState, Ok);
                              (CallFetchAbsolutePrestateHash, Ok)]).
Proof.
  rewrite ValidateAbsolutePrestate_run.
  destruct (AbsolutePreState trace ctx (world s)) as [[[p [e|]]|v] w1];
    cbn [fst]; try discriminate.
  cbn zeta.
  destruct (FetchAbsolutePrestateHash loader ctx w1) as [[[h [e|]]|v] w2] eqn:Hh;
    cbn [fst snd]; try discriminate.
  destruct (bytes_Equal (crypto_Keccak256 [p]) h) eqn:E; [|discriminate].
  intros _. apply bytes_Equal_eq in E.
  unfold crypto_Keccak256 in E. cbn [concat] in E. rewrite app_nil_r in E.
  exists p, w1, h, w2.
  split; [reflexivity|]. split; [exact Hh|]. split; [symmetry; exact E|].
  split; [|reflexivity]. subst h. apply keccak256_length.
Qed.
End ValidateProperties.

Section MonitorGameProperties.
Context `{Externals}.
Local Open Scope list_scope.

(** One run of [MonitorGame], case by case. *)
Lemma MonitorGame_run (svc : Service) ctx (s : St World) :
  MonitorGame svc ctx s =
  match Scheduler_Start (sched svc) ctx (world s) with
  | (Panicked v, w1) =>
      (Panicked v, mkSt w1 (calls s ++ [(CallSchedulerStart, Panic v)]))
  | (Returned _, w1) =>
      let '(o, w2) := GameMonitor_MonitorGames (monitor svc) ctx w1 in
      let loop := match o with
                  | Returned e => result_of_error e
                  | Panicked v => Panic v
                  end in
      let log r := calls s ++ [(CallSchedulerStart, Ok);
                               (CallMonitorGames, loop);
                               (CallSchedulerClose, r)] in
      match Scheduler_Close (sched svc) w2 with
      | (Returned e, w3) => (o, mkSt w3 (log (result_of_error e)))
      | (Panicked v, w3) => (Panicked v, mkSt w3 (log (Panic v)))
      end
  end.
Proof.
  unfold MonitorGame, func, bbind, lift, defer_, call_err, call, call_with, bind, ret.
  cbn [world calls].
  destruct (Scheduler_Start (sched svc) ctx (world s)) as [[[]|v] w1];
    cbn [world calls run_deferred result_of_error]; [|reflexivity].
  destruct (GameMonitor_MonitorGames (monitor svc) ctx w1) as [[e|v] w2];
    cbn [world calls run_deferred];
    destruct (Scheduler_Close (sched svc) w2) as [[e'|v'] w3];
    cbn [world calls]; repeat rewrite <- app_assoc; reflexivity.
Qed.

(** C2.  Once [Start] has returned, [MonitorGame] runs the monitor loop
    and then closes the scheduler, in that order and whatever way the
    loop ended (nil, an error, or a panic); [Close] runs in the world the
    loop left behind, and unless [Close] itself panics the caller gets
    exactly the loop's outcome. *)
Theorem MonitorGame_starts_runs_closes
    (svc : Service) ctx (s : St World) u w1 o w2 :
  Scheduler_Start (sched svc) ctx (world s) = (Returned u, w1) ->
  GameMonitor_MonitorGames (monitor svc) ctx w1 = (o, w2) ->
  let r := MonitorGame svc ctx s in
  (exists loop close,
      calls (snd r) = calls s ++ [(CallSchedulerStart, Ok);
                                  (CallMonitorGames, loop);
                                  (CallSchedulerClose, close)])
  /\ world (snd r) = snd (Scheduler_Close (sched svc) w2)
  /\ (forall e w3, Scheduler_Close (sched svc) w2 = (Returned e, w3) -> fst r = o).
Proof.
  intros Hstart Hloop. cbn zeta. rewrite MonitorGame_run, Hstart, Hloop.
  destruct (Scheduler_Close (sched svc) w2) as [[e|v] w3]; cbn [fst snd calls world].
  - split; [eauto|]. split; [reflexivity|]. reflexivity.
  - split; [eauto|]. split; [reflexivity|]. intros ? ? [=].
Qed.
(** X4.  [Close] is deferred only after [Start] has returned: if [Start]
    panics, [MonitorGame] panics with the same value and neither the
    monitor loop nor [Close] is ever called. *)
Theorem MonitorGame_start_panic_closes_nothing
    (svc : Service) ctx (s : St World) v w1 :
  Scheduler_Start (sched svc) ctx (world s) = (Panicked v, w1) ->
  MonitorGame svc ctx s
  = (Panicked v, mkSt w1 (calls s ++ [(CallSchedulerStart, Panic v)])).
Proof. intros Hstart. now rewrite MonitorGame_run, Hstart. Qed.

(** X5.  A panic of the deferred [Close] takes over: whatever way the
    monitor loop ended (nil, an error, or a panic of its own),
    [MonitorGame] then panics with the value of [Close], after all three
    calls were made. *)
Theorem MonitorGame_close_panic_overrides
    (svc : Service) ctx (s : St World) u w1 o w2 v w3 :
  Scheduler_Start (sched svc) ctx (world s) = (Returned u, w1) ->
  GameMonitor_MonitorGames (monitor svc) ctx w1 = (o, w2) ->
  Scheduler_Close (sched svc) w2 = (Panicked v, w3) ->
  fst (MonitorGame svc ctx s) = Panicked v
  /\ world (snd (MonitorGame svc ctx s)) = w3
  /\ exists loop,
       calls (snd (MonitorGame svc ctx s))
       = calls s ++ [(CallSchedulerStart, Ok); (CallMonitorGames, loop);
                     (CallSchedulerClose, Panic v)].
Proof.
  intros Hstart Hloop Hclose.
  rewrite MonitorGame_run, Hstart, Hloop. cbn zeta. rewrite Hclose.
  cbn [fst snd world calls]. repeat split. eauto.
Qed.
End MonitorGameProperties.

Section NewServiceProperties.
Context `{Externals}.
Local Open Scope string_scope.
Local Open Scope list_scope.

Lemma Unwrap_Errorf (format : string) (cause : error) :
  Unwrap (fmt_Errorf format (Some cause)) = Some cause.
Proof. reflexivity. Qed.

(** Run [NewService] forward in [Hrun], one collaborator at a time. *)
Ltac run_forward Hrun :=
  repeat (match type of Hrun with
          | context [match ?x with _ => _ end] =>
              lazymatch x with
              | context [match _ with _ => _ end] => fail
              | _ => destruct x eqn:?
              end
          end;
          cbn [world calls fst snd result_of_error] in Hrun;
          try discriminate Hrun).

(** Go through the events of a concrete log, dropping those that did
    not fail. *)
Ltac each_event Hin :=
  repeat (destruct Hin as [Hin|Hin]; [try discriminate Hin|]);
  try contradiction.

Ltac normalise_log :=
  cbn [world calls]; repeat rewrite <- app_assoc; cbn [app].


(** A Service is built around a scheduler created with
    [cfg.MaxConcurrency] and a monitor created with [cfg.GameWindow] and
    [cfg.GameAllowlist]. *)
Lemma NewService_passes_config ctx logger cfg (s : St World) svc s' :
  NewService ctx logger cfg s = (Returned (Some svc, None), s') ->
  exists new,
    calls s' = calls s ++ new
    /\ In (CallNewScheduler (cfg_MaxConcurrency cfg), Ok) new
    /\ In (CallNewGameMonitor (cfg_GameWindow cfg) (cfg_GameAllowlist cfg), Ok) new.
Proof.
  intros Hrun.
  unfold NewService, go_, bind, call, call_e, call_with, ret in Hrun.
  cbn [world calls] in Hrun.
  run_forward Hrun.
  all: injection Hrun as <- <-; normalise_log.
  all: eexists; split; [reflexivity|].
  all: cbn [In]; split; eauto 20.
Qed.




Lemma txmgr_error_wrapped (e : error) :
  fmt_Errorf "failed to create the transaction manager: %w" (Some e) =
  wrapError ("failed to create the transaction manager: " ++ Error e)%string e.
Proof.
  unfold fmt_Errorf. f_equal. cbn [subst_w]. now rewrite string_app_empty_r.
Qed.

Lemma dial_error_wrapped (e : error) :
  fmt_Errorf "failed to dial L1: %w" (Some e) =
  wrapError ("failed to dial L1: " ++ Error e)%string e.
Proof.
  unfold fmt_Errorf. f_equal. cbn [subst_w]. now rewrite string_app_empty_r.
Qed.

Lemma bind_error_wrapped (e : error) :
  fmt_Errorf "failed to bind the fault dispute game factory contract: %w" (Some e) =
  wrapError ("failed to bind the fault dispute game factory contract: " ++ Error e)%string e.
Proof.
  unfold fmt_Errorf. f_equal. cbn [subst_w]. now rewrite string_app_empty_r.
Qed.

(** Find an event in a concrete record. *)
Ltac find_event := solve [repeat first [left; reflexivity | right]].

(** Read a concrete record as the segments of a construction, with the
    configuration flags as the run found them. *)
Ltac fold_record :=
  unfold dialled, pprof_calls, metrics_calls, construction_calls;
  repeat match goal with
         | Hb : ?b = _ |- context [if ?b then _ else _] => rewrite Hb
         end;
  cbn [app].

(** X6.  A successful construction makes exactly these calls, in this
    order, each returning without error: metrics, transaction manager, L1
    dial; the pprof server if enabled; the metrics server and the balance
    metrics if enabled; the factory binding; then loader, disk manager on
    [cfg.Datadir], scheduler with [cfg.MaxConcurrency], monitor with
    [cfg.GameWindow] and [cfg.GameAllowlist]; and last of all the info and
    up metrics. *)
Theorem NewService_success_record ctx lg cfg (s : St World) svc s' :
  NewService ctx lg cfg s = (Returned (Some svc, None), s') ->
  calls s' = calls s ++ dialled ++ pprof_calls cfg ++ metrics_calls cfg
             ++ [(CallNewDisputeGameFactory, Ok)] ++ construction_calls cfg.
Proof.
  intros Hrun.
  unfold NewService, go_, bind, call, call_e, call_with, ret in Hrun.
  cbn [world calls] in Hrun.
  run_forward Hrun.
  all: injection Hrun as <- <-; normalise_log.
  all: fold_record; reflexivity.
Qed.

(** X7.  A failed construction stops at the failing step.  If the
    transaction manager cannot be created, nothing but the metrics and the
    transaction manager was touched; if the dial fails, no server was
    started and no contract bound; if the factory binding fails, the
    servers the configuration enables have already been started, and
    neither loader, disk manager, scheduler nor monitor is created, nor are
    the info and up metrics recorded.  The error wraps the cause. *)
Theorem NewService_failure_record ctx lg cfg (s : St World) svc e s' :
  NewService ctx lg cfg s = (Returned (svc, Some e), s') ->
  svc = None
  /\ exists cause,
      Unwrap e = Some cause
      /\ (calls s' = calls s ++ [(CallNewMetrics, Ok);
                                 (CallNewSimpleTxManager, Failed cause)]
          \/ calls s' = calls s ++ [(CallNewMetrics, Ok);
                                    (CallNewSimpleTxManager, Ok);
                                    (CallDialEthClientWithTimeout, Failed cause)]
          \/ calls s' = calls s ++ dialled ++ pprof_calls cfg ++ metrics_calls cfg
                        ++ [(CallNewDisputeGameFactory, Failed cause)]).
Proof.
  intros Hrun.
  unfold NewService, go_, bind, call, call_e, call_with, ret in Hrun.
  cbn [world calls] in Hrun.
  run_forward Hrun.
  all: injection Hrun as <- <- <-; normalise_log.
  all: split; [reflexivity|]; eexists; split; [reflexivity|].
  all: fold_record.
  all: first [left; reflexivity | right; left; reflexivity | right; right; reflexivity].
Qed.

(** X8.  The message of a construction error names the step and carries
    the cause's own message: "failed to create the transaction manager: ",
    "failed to dial L1: " or "failed to bind the fault dispute game factory
    contract: ", followed by the message of the error the failing call
    returned. *)
Theorem NewService_error_message ctx lg cfg (s : St World) svc e s' :
  NewService ctx lg cfg s = (Returned (svc, Some e), s') ->
  exists new cause,
    calls s' = calls s ++ new
    /\ ((In (CallNewSimpleTxManager, Failed cause) new
         /\ Error e = "failed to create the transaction manager: " ++ Error cause)
        \/ (In (CallDialEthClientWithTimeout, Failed cause) new
            /\ Error e = "failed to dial L1: " ++ Error cause)
        \/ (In (CallNewDisputeGameFactory, Failed cause) new
            /\ Error e = "failed to bind the fault dispute game factory contract: "
                         ++ Error cause))%string.
Proof.
  intros Hrun.
  unfold NewService, go_, bind, call, call_e, call_with, ret in Hrun.
  cbn [world calls] in Hrun.
  run_forward Hrun.
  all: rewrite ?txmgr_error_wrapped, ?dial_error_wrapped, ?bind_error_wrapped
         in Hrun.
  all: injection Hrun as <- <- <-; normalise_log.
  all: do 2 eexists; split; [reflexivity|].
  all: cbn [In Error].
  all: first [ left; split; [eauto 20|reflexivity]
             | right; left; split; [eauto 20|reflexivity]
             | right; right; split; [eauto 20|reflexivity] ].
Qed.

(** X9.  Whenever [NewService] returns, with a Service or with an error:
    the pprof server goroutine was started exactly when pprof is enabled and
    the L1 dial had succeeded, the metrics server goroutine exactly when the
    metrics are enabled and the dial had succeeded, and the balance metrics
    exactly with the metrics server.  So a failed dial starts no server,
    while a failed factory binding leaves the enabled ones started. *)
Theorem NewService_servers_started ctx lg cfg (s : St World) r s' :
  NewService ctx lg cfg s = (Returned r, s') ->
  exists new,
    calls s' = calls s ++ new
    /\ (In (CallGo GoPprofServer, Ok) new
        <-> pprof_Enabled (cfg_PprofConfig cfg) = true
            /\ In (CallDialEthClientWithTimeout, Ok) new)
    /\ (In (CallGo GoMetricsServer, Ok) new
        <-> metrics_Enabled (cfg_MetricsConfig cfg) = true
            /\ In (CallDialEthClientWithTimeout, Ok) new)
    /\ (In (CallStartBalanceMetrics, Ok) new
        <-> In (CallGo GoMetricsServer, Ok) new).
Proof.
  intros Hrun.
  unfold NewService, go_, bind, call, call_e, call_with, ret in Hrun.
  cbn [world calls] in Hrun.
  run_forward Hrun.
  all: injection Hrun as <- <-; normalise_log.
  all: eexists; split; [reflexivity|].
  all: cbn [In].
  all: repeat match goal with
              | Hb : ?b = _ |- context [?b = true] => rewrite Hb
              end.
  all: repeat split; intros.
  all: repeat match goal with Hc : _ /\ _ |- _ => destruct Hc end.
  all: try discriminate.
  all: try reflexivity.
  all: try find_event.
  all: match goal with Hin : _ \/ _ |- _ => each_event Hin end.
Qed.

(** One run of the pprof goroutine, case by case. *)
Lemma pprof_goroutine_run ctx lg pprofConfig (s : St World) :
  pprof_goroutine ctx lg pprofConfig s =
  match oppprof_ListenAndServe ctx (pprof_ListenAddr pprofConfig)
          (pprof_ListenPort pprofConfig) (world s) with
  | (Panicked v, w1) =>
      (Panicked v, mkSt w1 (calls s ++ [(CallListenAndServe, Panic v)]))
  | (Returned None, w1) =>
      (Returned tt, mkSt w1 (calls s ++ [(CallListenAndServe, Ok)]))
  | (Returned (Some e), w1) =>
      let '(o, w2) := Logger_Error lg "error starting pprof"
                        [LogString "err"; LogError e] w1 in
      (o, mkSt w2 (calls s ++ [(CallListenAndServe, Failed e);
                               (CallLoggerError "error starting pprof",
                                match o with
                                | Returned _ => Ok
                                | Panicked v => Panic v
                                end)]))
  end.
Proof.
  unfold pprof_goroutine, bind, call, call_err, call_with, ret.
  destruct (oppprof_ListenAndServe _ _ _ _) as [[[e|]|v] w1];
    cbn [world calls id result_of_error]; try reflexivity.
  destruct (Logger_Error _ _ _ w1) as [[u|v] w2];
    cbn [result_of_error]; rewrite <- app_assoc; reflexivity.
Qed.

(** One run of the metrics goroutine, case by case. *)
Lemma metrics_goroutine_run ctx lg m metricsCfg (s : St World) :
  metrics_goroutine ctx lg m metricsCfg s =
  match Metrics_Serve m ctx (metrics_ListenAddr metricsCfg)
          (metrics_ListenPort metricsCfg) (world s) with
  | (Panicked v, w1) =>
      (Panicked v, mkSt w1 (calls s ++ [(CallServe, Panic v)]))
  | (Returned None, w1) =>
      (Returned tt, mkSt w1 (calls s ++ [(CallServe, Ok)]))
  | (Returned (Some e), w1) =>
      let '(o, w2) := Logger_Error lg "error starting metrics server"
                        [LogString "err"; LogError e] w1 in
      (o, mkSt w2 (calls s ++ [(CallServe, Failed e);
                               (CallLoggerError "error starting metrics server",
                                match o with
                                | Returned _ => Ok
                                | Panicked v => Panic v
                                end)]))
  end.
Proof.
  unfold metrics_goroutine, bind, call, call_err, call_with, ret.
  destruct (Metrics_Serve _ _ _ _ _) as [[[e|]|v] w1];
    cbn [world calls id result_of_error]; try reflexivity.
  destruct (Logger_Error _ _ _ w1) as [[u|v] w2];
    cbn [result_of_error]; rewrite <- app_assoc; reflexivity.
Qed.

(** X11.  The two server goroutines only log a failure to serve:
    [Logger.Error] is called, under "error starting pprof" ("error starting
    metrics server"), exactly when [ListenAndServe] ([Serve]) returned an
    error, and unless a collaborator panics the goroutine ends normally, so
    the error goes nowhere else. *)
Theorem server_goroutines_log_failure ctx lg m pprofConfig metricsCfg
    (s : St World) :
  (exists new,
      calls (snd (pprof_goroutine ctx lg pprofConfig s)) = calls s ++ new
      /\ ((exists res, In (CallLoggerError "error starting pprof", res) new)
          <-> exists e w1,
              oppprof_ListenAndServe ctx (pprof_ListenAddr pprofConfig)
                (pprof_ListenPort pprofConfig) (world s)
              = (Returned (Some e), w1))
      /\ ((forall c v, ~ In (c, Panic v) new) ->
          fst (pprof_goroutine ctx lg pprofConfig s) = Returned tt))
  /\ (exists new,
        calls (snd (metrics_goroutine ctx lg m metricsCfg s)) = calls s ++ new
        /\ ((exists res,
                In (CallLoggerError "error starting metrics server", res) new)
            <-> exists e w1,
                Metrics_Serve m ctx (metrics_ListenAddr metricsCfg)
                  (metrics_ListenPort metricsCfg) (world s)
                = (Returned (Some e), w1))
        /\ ((forall c v, ~ In (c, Panic v) new) ->
            fst (metrics_goroutine ctx lg m metricsCfg s) = Returned tt)).
Proof.
  split.
  - rewrite pprof_goroutine_run.
    destruct (oppprof_ListenAndServe _ _ _ _) as [[[e|]|v] w1].
    + cbn zeta. destruct (Logger_Error _ _ _ w1) as [[[]|v] w2];
        cbn [fst snd calls]; eexists; (split; [reflexivity|]); cbn [In].
      * split; [split; eauto|reflexivity].
      * split; [split; eauto|]. intros Hno. exfalso. eapply Hno. eauto.
    + cbn [fst snd calls]. eexists. split; [reflexivity|]. cbn [In].
      split; [|reflexivity]. split.
      * intros (res & [[=]|[]]).
      * intros (e & w1' & [=]).
    + cbn [fst snd calls]. eexists. split; [reflexivity|]. cbn [In]. split.
      * split; [intros (res & [[=]|[]]) | intros (e & w1' & [=])].
      * intros Hno. exfalso. eapply Hno. eauto.
  - rewrite metrics_goroutine_run.
    destruct (Metrics_Serve _ _ _ _ _) as [[[e|]|v] w1].
    + cbn zeta. destruct (Logger_Error _ _ _ w1) as [[[]|v] w2];
        cbn [fst snd calls]; eexists; (split; [reflexivity|]); cbn [In].
      * split; [split; eauto|reflexivity].
      * split; [split; eauto|]. intros Hno. exfalso. eapply Hno. eauto.
    + cbn [fst snd calls]. eexists. split; [reflexivity|]. cbn [In].
      split; [|reflexivity]. split.
      * intros (res & [[=]|[]]).
      * intros (e & w1' & [=]).
    + cbn [fst snd calls]. eexists. split; [reflexivity|]. cbn [In]. split.
      * split; [intros (res & [[=]|[]]) | intros (e & w1' & [=])].
      * intros Hno. exfalso. eapply Hno. eauto.
Qed.
End NewServiceProperties.

(** ** The worker pool *)
Section WorkerPoolProperties.
Import WorkerPool.

Lemma length_omap_id_le (l : list (option Address)) :
  length (omap id l) <= length l.
Proof. induction l as [|[g|] l IH]; cbn; lia. Qed.

Lemma full_pool_no_free_slot (l : list (option Address)) (i : nat) :
  length (omap id l) = length l -> l !! i <> Some None.
Proof.
  revert i; induction l as [|[g|] l IH]; intros i Hfull; cbn in *.
  - now rewrite lookup_nil.
  - destruct i as [|i]; cbn; [discriminate|]. apply IH. lia.
  - pose proof (length_omap_id_le l). lia.
Qed.

Lemma free_slot_not_full (l : list (option Address)) (i : nat) :
  l !! i = Some None -> length (omap id l) < length l.
Proof.
  intros Hfree. pose proof (length_omap_id_le l) as Hle.
  destruct (decide (length (omap id l) = length l)) as [Hfull|]; [|lia].
  now apply full_pool_no_free_slot with (i := i) in Hfull.
Qed.

Lemma step_pool_length (a : Action) (st st' : State) :
  step a st = Some st' -> length (pool st') = length (pool st).
Proof.
  destruct a as [ready|i|i]; cbn.
  - now intros [= <-].
  - destruct (waiting st) as [|g rest]; [discriminate|].
    destruct (pool st !! i) as [[g'|]|]; try discriminate.
    intros [= <-]. cbn. apply length_insert.
  - destruct (pool st !! i) as [[g'|]|]; try discriminate.
    intros [= <-]. cbn. apply length_insert.
Qed.

Lemma run_pool_length (acts : list Action) (st st' : State) :
  run acts st = Some st' -> length (pool st') = length (pool st).
Proof.
  revert st; induction acts as [|a acts IH]; intros st; cbn.
  - now intros [= <-].
  - destruct (step a st) as [st1|] eqn:Hstep; [|discriminate].
    intros Hrun. rewrite (IH _ Hrun). now apply step_pool_length with a.
Qed.

(** C6.  In every state the pool can reach from its initial state, by ticks
    and by steps starting and completing in any interleaving, at most
    [maxConcurrency] [Progress] calls are executing.  A step starts only
    while fewer than that are executing; once all capacity is in use no
    waiting step can start, and the work a tick makes ready is queued
    without changing what is executing. *)
Theorem executing_never_exceeds_MaxConcurrency
    (maxConcurrency : nat) (acts : list Action) (st : State) :
  run acts (init maxConcurrency) = Some st ->
  length (executing st) <= maxConcurrency
  /\ (forall i st', step (Dispatch i) st = Some st' ->
        length (executing st) < maxConcurrency)
  /\ (length (executing st) = maxConcurrency ->
      forall i, step (Dispatch i) st = None)
  /\ (forall ready,
        exists st', step (Tick ready) st = Some st'
                    /\ executing st' = executing st
                    /\ waiting st' = waiting st ++ ready).
Proof.
  intros Hrun. apply run_pool_length in Hrun. cbn in Hrun.
  rewrite length_replicate in Hrun. unfold executing. rewrite <- Hrun.
  split; [apply length_omap_id_le|]. split; [|split].
  - intros i st'. cbn. destruct (waiting st) as [|g rest]; [discriminate|].
    destruct (pool st !! i) as [[g'|]|] eqn:Hi; try discriminate.
    intros _. now apply free_slot_not_full with i.
  - intros Hfull i. cbn. destruct (waiting st) as [|g rest]; [reflexivity|].
    destruct (pool st !! i) as [[g'|]|] eqn:Hi; try reflexivity.
    now apply full_pool_no_free_slot with (i := i) in Hfull.
  - intros ready. eexists. split; [reflexivity|]. split; reflexivity.
Qed.
End WorkerPoolProperties.

(** ** Scheduling ticks *)
Section SchedulerProperties.
Import SchedulerModel.
Context {W Player : Type}.
Variable createPlayer : Address -> string -> W -> (Player + error) * W.
Variable Progress : Player -> W -> option error * W.
Variable DirFor : Address -> W -> (string + error) * W.
Variable Release : Address -> W -> W.
Variable FetchGames : Window -> W -> (list Game * option error) * W.

Local Abbreviation Slots := (gmap Address (@PlayerSlot Player)).
Local Abbreviation create := (create_players createPlayer DirFor).
Local Abbreviation progress := (progress_players Progress).
Local Abbreviation tear := (teardown Release).
Local Abbreviation schedule := (Schedule createPlayer Progress DirFor Release).

(** Creation leaves the existing slots as they are. *)
Lemma create_players_keeps games (slots : Slots) w a s :
  slots !! a = Some s -> (create games slots w).1.1 !! a = Some s.
Proof.
  revert slots w; induction games as [|g games IH]; intros slots w Ha; cbn;
    [exact Ha|].
  destruct (slots !! g) eqn:Hg; [now apply IH|].
  destruct (DirFor g w) as [[dir|err] w1].
  - destruct (createPlayer g dir w1) as [[p|err] w2].
    + match goal with
      | |- context [create games ?m ?w'] =>
          specialize (IH m w'); destruct (create games m w') as [[s1 w'1] l1]
      end.
      cbn in *. apply IH. rewrite lookup_insert_ne; [exact Ha|congruence].
    + specialize (IH slots w2 Ha).
      destruct (create games slots w2) as [[s1 w'1] l1]. exact IH.
  - specialize (IH slots w1 Ha).
    destruct (create games slots w1) as [[s1 w'1] l1]. exact IH.
Qed.

(** A slot present after creation was there before or is in the target. *)
Lemma create_players_origin games (slots : Slots) w a :
  is_Some ((create games slots w).1.1 !! a) -> is_Some (slots !! a) \/ a ∈ games.
Proof.
  revert slots w; induction games as [|g games IH]; intros slots w; cbn;
    [now left|].
  assert (Hstep : forall m w',
             is_Some ((create games m w').1.1 !! a) ->
             (is_Some (m !! a) -> is_Some (slots !! a) \/ a = g) ->
             is_Some (slots !! a) \/ a ∈ g :: games).
  { intros m w' Hres Hm. destruct (IH m w' Hres) as [Hin|Hin].
    - destruct (Hm Hin) as [?| ->]; [now left|right; apply list_elem_of_here].
    - right. now apply list_elem_of_further. }
  destruct (slots !! g) eqn:Hg;
    [intros Hres; apply (Hstep slots w Hres); intros ?; now left|].
  destruct (DirFor g w) as [[dir|err] w1].
  - destruct (createPlayer g dir w1) as [[p|err] w2].
    + match goal with
      | |- context [create games ?m ?w'] =>
          specialize (Hstep m w'); destruct (create games m w') as [[s1 w'1] l1]
      end.
      cbn in *. intros Hres. apply Hstep; [exact Hres|].
      rewrite lookup_insert_is_Some. intros [->|[_ ?]]; [now right|now left].
    + specialize (Hstep slots w2).
      destruct (create games slots w2) as [[s1 w'1] l1].
      cbn in *. intros Hres. apply Hstep; [exact Hres|intros ?; now left].
  - specialize (Hstep slots w1).
    destruct (create games slots w1) as [[s1 w'1] l1].
    cbn in *. intros Hres. apply Hstep; [exact Hres|intros ?; now left].
Qed.

(** Creation concerns addresses of the target that had no slot, and it
    neither invokes [Progress] nor releases anything. *)
Lemma create_players_log games (slots : Slots) w ev :
  ev ∈ (create games slots w).2 ->
  exists a, a ∈ games /\ slots !! a = None
            /\ (ev = EvCreated a
                \/ (exists err, ev = EvDirFailed a err)
                \/ (exists err, ev = EvCreateFailed a err)).
Proof.
  revert slots w; induction games as [|g games IH]; intros slots w; cbn.
  - intros Hin. now apply elem_of_nil in Hin.
  - assert (Hrest : forall m w',
               (forall a, m !! a = None -> slots !! a = None) ->
               ev ∈ (create games m w').2 ->
               exists a, a ∈ g :: games /\ slots !! a = None
                         /\ (ev = EvCreated a
                             \/ (exists err, ev = EvDirFailed a err)
                             \/ (exists err, ev = EvCreateFailed a err))).
    { intros m w' Hm Hin. destruct (IH m w' Hin) as (a & Ha & Hnone & Hev).
      exists a. split; [now apply list_elem_of_further|]. split; [auto|exact Hev]. }
    destruct (slots !! g) eqn:Hg; [apply Hrest; auto|].
    destruct (DirFor g w) as [[dir|err] w1].
    + destruct (createPlayer g dir w1) as [[p|err] w2].
      * match goal with
        | |- context [create games ?m ?w'] =>
            specialize (Hrest m w'); destruct (create games m w') as [[s1 w'1] l1]
        end.
        cbn in *. intros [->|Hin]%elem_of_cons.
        -- exists g. split; [apply list_elem_of_here|]. split; [exact Hg|now left].
        -- apply Hrest; [|exact Hin].
           intros a Ha. now apply lookup_insert_None in Ha as [? _].
      * specialize (Hrest slots w2).
        destruct (create games slots w2) as [[s1 w'1] l1].
        cbn in *. intros [->|Hin]%elem_of_cons.
        -- exists g. split; [apply list_elem_of_here|]. split; [exact Hg|eauto].
        -- apply Hrest; auto.
    + specialize (Hrest slots w1).
      destruct (create games slots w1) as [[s1 w'1] l1].
      cbn in *. intros [->|Hin]%elem_of_cons.
      * exists g. split; [apply list_elem_of_here|]. split; [exact Hg|eauto].
      * apply Hrest; auto.
Qed.
(** Progress keeps every slot, with its player and its directory. *)
Lemma progress_players_slots games (slots : Slots) w a :
  slot_player <$> ((progress games slots w).1.1 !! a) = slot_player <$> (slots !! a)
  /\ slot_dir <$> ((progress games slots w).1.1 !! a) = slot_dir <$> (slots !! a).
Proof.
  revert slots w; induction games as [|g games IH]; intros slots w; cbn;
    [now split|].
  destruct (slots !! g) as [slot|] eqn:Hg; [|apply IH].
  destruct (Progress (slot_player slot) w) as [err w1].
  match goal with
  | |- context [progress games ?m ?w'] =>
      specialize (IH m w'); destruct (progress games m w') as [[s1 w'1] l1]
  end.
  cbn in *. destruct IH as [IHp IHd]. rewrite IHp, IHd.
  destruct (decide (g = a)) as [->|Hne].
  - rewrite lookup_insert_eq, Hg. now split.
  - rewrite lookup_insert_ne by exact Hne. now split.
Qed.

Lemma progress_players_is_Some games (slots : Slots) w a :
  is_Some ((progress games slots w).1.1 !! a) <-> is_Some (slots !! a).
Proof.
  rewrite <- !(fmap_is_Some slot_player).
  now rewrite (proj1 (progress_players_slots games slots w a)).
Qed.

(** Every address of the target that has a slot gets its [Progress]. *)
Lemma progress_players_invokes games (slots : Slots) w a :
  a ∈ games -> is_Some (slots !! a) ->
  exists err, EvProgress a err ∈ (progress games slots w).2.
Proof.
  revert slots w; induction games as [|g games IH]; intros slots w Hin Hsome.
  - now apply elem_of_nil in Hin.
  - cbn. destruct (slots !! g) as [slot|] eqn:Hg.
    + destruct (Progress (slot_player slot) w) as [err w1].
      match goal with
      | |- context [progress games ?m ?w'] =>
          specialize (IH m w'); destruct (progress games m w') as [[s1 w'1] l1]
      end.
      cbn in *. destruct (decide (a = g)) as [->|Hne].
      * exists err. apply list_elem_of_here.
      * apply elem_of_cons in Hin as [?|Hin]; [contradiction|].
        destruct (IH Hin) as [err' Herr'].
        { rewrite lookup_insert_ne by congruence. exact Hsome. }
        exists err'. now apply list_elem_of_further.
    + apply elem_of_cons in Hin as [->|Hin].
      * rewrite Hg in Hsome. now destruct Hsome.
      * now apply IH.
Qed.

(** [Progress] is invoked for slots of the target only, and this phase
    does nothing else. *)
Lemma progress_players_log games (slots : Slots) w ev :
  ev ∈ (progress games slots w).2 ->
  exists a err, ev = EvProgress a err /\ a ∈ games /\ is_Some (slots !! a).
Proof.
  revert slots w; induction games as [|g games IH]; intros slots w; cbn.
  - intros Hin. now apply elem_of_nil in Hin.
  - destruct (slots !! g) as [slot|] eqn:Hg.
    + destruct (Progress (slot_player slot) w) as [err w1].
      match goal with
      | |- context [progress games ?m ?w'] =>
          specialize (IH m w'); destruct (progress games m w') as [[s1 w'1] l1]
      end.
      cbn in *. intros [->|Hin]%elem_of_cons.
      * exists g, err. split; [reflexivity|]. split; [apply list_elem_of_here|].
        rewrite Hg. eauto.
      * destruct (IH Hin) as (a & err' & -> & Ha & Hsome).
        exists a, err'. split; [reflexivity|].
        split; [now apply list_elem_of_further|].
        apply lookup_insert_is_Some in Hsome as [<-|[_ ?]]; [|assumption].
        rewrite Hg. eauto.
    + intros Hin. destruct (IH slots w Hin) as (a & err & -> & Ha & Hsome).
      exists a, err. split; [reflexivity|].
      split; [now apply list_elem_of_further|exact Hsome].
Qed.

(** Teardown keeps exactly the slots of the target. *)
Lemma teardown_lookup games (slots : Slots) w a :
  (tear games slots w).1.1 !! a
  = if decide (a ∈ games) then slots !! a else None.
Proof.
  unfold teardown. cbn. destruct (decide (a ∈ games)) as [Hin|Hout].
  - destruct (slots !! a) as [s|] eqn:Ha.
    + now apply map_lookup_filter_Some.
    + apply map_lookup_filter_None. now left.
  - apply map_lookup_filter_None. right. intros s _. exact Hout.
Qed.

(** Only slots absent from the target are released. *)
Lemma teardown_log games (slots : Slots) w ev :
  ev ∈ (tear games slots w).2 ->
  exists a, ev = EvReleased a /\ (a ∉ games) /\ is_Some (slots !! a).
Proof.
  unfold teardown. cbn.
  intros (a & -> & Ha)%list_elem_of_fmap.
  apply list_elem_of_filter in Ha as [Hout Ha].
  apply list_elem_of_fmap in Ha as ([a' s] & -> & Hs).
  apply elem_of_map_to_list in Hs.
  exists a'. cbn in *. split; [reflexivity|]. split; [exact Hout|]. eauto.
Qed.

Lemma teardown_releases games (slots : Slots) w a :
  a ∉ games -> is_Some (slots !! a) -> EvReleased a ∈ (tear games slots w).2.
Proof.
  intros Hout [s Hs]. unfold teardown. cbn.
  apply list_elem_of_fmap. exists a. split; [reflexivity|].
  apply list_elem_of_filter. split; [exact Hout|].
  apply list_elem_of_fmap. exists (a, s). split; [reflexivity|].
  now apply elem_of_map_to_list.
Qed.

(** One tick, phase by phase. *)
Lemma Schedule_unfold games (slots : Slots) w :
  schedule games slots w =
  let targets := remove_dups games in
  let c := create targets slots w in
  let p := progress targets c.1.1 c.1.2 in
  let t := tear targets p.1.1 p.1.2 in
  (t.1.1, t.1.2, c.2 ++ p.2 ++ t.2).
Proof.
  unfold Schedule. cbn zeta.
  destruct (create (remove_dups games) slots w) as [[s1 w1] l1]. cbn [fst snd].
  destruct (progress (remove_dups games) s1 w1) as [[s2 w2] l2]. cbn [fst snd].
  now destruct (tear (remove_dups games) s2 w2) as [[s3 w3] l3].
Qed.

(** After a tick, every slot belongs to an address of the target. *)
Lemma Schedule_slots_in_target games (slots : Slots) w a :
  is_Some ((schedule games slots w).1.1 !! a) -> a ∈ games.
Proof.
  rewrite Schedule_unfold. cbn zeta. cbn [fst snd]. rewrite teardown_lookup.
  destruct (decide (a ∈ remove_dups games)) as [Hin|Hout].
  - intros _. now rewrite elem_of_remove_dups in Hin.
  - intros [s Hs]. discriminate.
Qed.

(** A slot of an address of the target survives the tick with its player
    and its directory. *)
Lemma Schedule_keeps_slot games (slots : Slots) w a :
  a ∈ games -> is_Some (slots !! a) ->
  is_Some ((schedule games slots w).1.1 !! a)
  /\ slot_player <$> ((schedule games slots w).1.1 !! a) = slot_player <$> (slots !! a)
  /\ slot_dir <$> ((schedule games slots w).1.1 !! a) = slot_dir <$> (slots !! a).
Proof.
  intros Hin [s Hs]. rewrite Schedule_unfold. cbn zeta. cbn [fst snd]. rewrite teardown_lookup.
  rewrite <- elem_of_remove_dups in Hin. rewrite decide_True by exact Hin.
  pose proof (create_players_keeps (remove_dups games) slots w a s Hs) as Hc.
  destruct (progress_players_slots (remove_dups games)
              (create (remove_dups games) slots w).1.1
              (create (remove_dups games) slots w).1.2 a) as [Hp Hd].
  rewrite Hc in Hp, Hd. rewrite Hs. split; [|split; assumption].
  apply (fmap_is_Some slot_player). rewrite Hp. cbn. eauto.
Qed.

(** What a tick can put on record for an address, and when. *)
Lemma Schedule_log games (slots : Slots) w ev :
  ev ∈ (schedule games slots w).2 ->
  (exists a, a ∈ games /\ slots !! a = None
             /\ (ev = EvCreated a
                 \/ (exists err, ev = EvDirFailed a err)
                 \/ (exists err, ev = EvCreateFailed a err)))
  \/ (exists a err, ev = EvProgress a err /\ a ∈ games
                    /\ is_Some ((schedule games slots w).1.1 !! a))
  \/ (exists a, ev = EvReleased a /\ (a ∉ games) /\ is_Some (slots !! a)).
Proof.
  rewrite Schedule_unfold. cbn zeta. cbn [fst snd].
  intros [Hc|[Hp|Ht]%elem_of_app]%elem_of_app.
  - left. apply create_players_log in Hc as (a & Ha & Hnone & Hev).
    exists a. split; [now rewrite elem_of_remove_dups in Ha|]. now split.
  - right; left. apply progress_players_log in Hp as (a & err & -> & Ha & Hsome).
    exists a, err. split; [reflexivity|].
    split; [now rewrite elem_of_remove_dups in Ha|].
    rewrite teardown_lookup, decide_True by exact Ha.
    now apply progress_players_is_Some.
  - right; right. apply teardown_log in Ht as (a & -> & Hout & Hsome).
    exists a. split; [reflexivity|].
    split; [now rewrite elem_of_remove_dups in Hout|].
    apply progress_players_is_Some in Hsome.
    apply create_players_origin in Hsome as [?|?]; [assumption|contradiction].
Qed.

(** A slot of the target gets its [Progress] in the tick. *)
Lemma Schedule_invokes games (slots : Slots) w a :
  a ∈ games -> is_Some (slots !! a) ->
  exists err, EvProgress a err ∈ (schedule games slots w).2.
Proof.
  intros Hin [s Hs]. rewrite Schedule_unfold. cbn zeta. cbn [fst snd].
  rewrite <- elem_of_remove_dups in Hin.
  destruct (progress_players_invokes (remove_dups games)
              (create (remove_dups games) slots w).1.1
              (create (remove_dups games) slots w).1.2 a Hin) as [err Herr].
  { rewrite (create_players_keeps _ _ _ _ _ Hs). eauto. }
  exists err. apply elem_of_app. right. apply elem_of_app. now left.
Qed.
(** C8.  A game whose [Progress] returned an error in one tick keeps its
    slot: nothing is released for it in that tick.  In the next tick, if
    the game is still in the target set, [Progress] is invoked for it again,
    on the same player and directory, without a new player being created.
    Its slot can be gone after the next tick, or released in it, only if the
    game is absent from that tick's target set. *)
Theorem progress_error_retains_slot
    games1 games2 (slots0 : Slots) w0 a err :
  EvProgress a (Some err)
    ∈ (Schedule createPlayer Progress DirFor Release games1 slots0 w0).2 ->
  let t1 := Schedule createPlayer Progress DirFor Release games1 slots0 w0 in
  let t2 := Schedule createPlayer Progress DirFor Release games2 t1.1.1 t1.1.2 in
  is_Some (t1.1.1 !! a)
  /\ (EvReleased a ∉ t1.2)
  /\ (a ∈ games2 ->
      (exists err', EvProgress a err' ∈ t2.2)
      /\ is_Some (t2.1.1 !! a)
      /\ slot_player <$> (t2.1.1 !! a) = slot_player <$> (t1.1.1 !! a)
      /\ slot_dir <$> (t2.1.1 !! a) = slot_dir <$> (t1.1.1 !! a)
      /\ (EvCreated a ∉ t2.2)
      /\ (EvReleased a ∉ t2.2))
  /\ (t2.1.1 !! a = None \/ EvReleased a ∈ t2.2 -> a ∉ games2).
Proof.
  intros Herr. cbn zeta.
  assert (Hin1 : a ∈ games1 /\ is_Some ((schedule games1 slots0 w0).1.1 !! a)).
  { apply Schedule_log in Herr
      as [(b & _ & _ & [?|[[? ?]|[? ?]]])
         |[(b & e & [= <- <-] & ? & ?)|(b & ? & _)]]; try discriminate.
    now split. }
  destruct Hin1 as [Hin1 Hslot1].
  split; [exact Hslot1|]. split; [|split].
  - intros Hrel. apply Schedule_log in Hrel
      as [(b & _ & _ & [?|[[? ?]|[? ?]]])
         |[(b & e & ? & _)|(b & [= <-] & Hout & _)]]; try discriminate.
    contradiction.
  - intros Hin2.
    destruct (Schedule_keeps_slot games2 _ (schedule games1 slots0 w0).1.2 a
                Hin2 Hslot1) as (Hsome2 & Hp & Hd).
    split; [now apply Schedule_invokes|]. split; [exact Hsome2|].
    split; [exact Hp|]. split; [exact Hd|]. split.
    + intros Hnew. apply Schedule_log in Hnew
        as [(b & _ & Hnone & [[= <-]|[[? ?]|[? ?]]])
           |[(b & e & ? & _)|(b & ? & _)]]; try discriminate.
      rewrite Hnone in Hslot1. now destruct Hslot1.
    + intros Hrel. apply Schedule_log in Hrel
        as [(b & _ & _ & [?|[[? ?]|[? ?]]])
           |[(b & e & ? & _)|(b & [= <-] & Hout & _)]]; try discriminate.
      contradiction.
  - intros [Hgone|Hrel] Hin2.
    + destruct (Schedule_keeps_slot games2 _ (schedule games1 slots0 w0).1.2 a
                  Hin2 Hslot1) as ([s Hs] & _).
      congruence.
    + apply Schedule_log in Hrel
        as [(b & _ & _ & [?|[[? ?]|[? ?]]])
           |[(b & e & ? & _)|(b & [= <-] & Hout & _)]]; try discriminate.
      contradiction.
Qed.

(** ** The monitor and its allowlist *)

Local Abbreviation tick := (monitor_tick createPlayer Progress DirFor Release FetchGames).
Local Abbreviation loop := (monitor_loop createPlayer Progress DirFor Release FetchGames).

Lemma filter_allowlist_in allowlist games a :
  allowlist <> [] ->
  a ∈ filter_allowlist allowlist games -> a ∈ allowlist /\ a ∈ games.
Proof.
  destruct allowlist as [|b allowlist]; [congruence|]. intros _. cbn.
  now rewrite list_elem_of_filter.
Qed.

Lemma filter_allowlist_empty games : filter_allowlist [] games = games.
Proof. reflexivity. Qed.

Lemma monitor_tick_within_allowlist gameWindow allowlist head (slots : Slots) w :
  allowlist <> [] ->
  (forall a, is_Some (slots !! a) -> a ∈ allowlist) ->
  within_allowlist allowlist (tick gameWindow allowlist head slots w).
Proof.
  intros Hne Hslots. unfold monitor_tick, within_allowlist.
  destruct (FetchGames _ w) as [[games [err|]] w1]; cbn [fst snd].
  - split; [|split; [|exact Hslots]].
    + intros gs a [=]%list_elem_of_singleton.
    + intros a [=]%list_elem_of_singleton.
  - set (filtered := filter_allowlist allowlist (game_address <$> games)).
    pose proof (Schedule_slots_in_target filtered slots w1) as Hin.
    pose proof (Schedule_log filtered slots w1) as Hlog.
    destruct (schedule filtered slots w1) as [[slots' w2] log]. cbn in *.
    assert (Hallowed : forall a, a ∈ filtered -> a ∈ allowlist).
    { intros a Ha. now apply filter_allowlist_in in Ha as [? _]. }
    split; [|split].
    + intros gs a [[= ->]|Hev]%elem_of_cons; [apply Hallowed|].
      apply Hlog in Hev
        as [(b & _ & _ & [?|[[? ?]|[? ?]]])
           |[(b & e & ? & _)|(b & ? & _)]]; discriminate.
    + intros a [?|Hev]%elem_of_cons; [discriminate|].
      apply Hlog in Hev
        as [(b & Hb & _ & [[= <-]|[[? ?]|[? ?]]])
           |[(b & e & ? & _)|(b & ? & _)]]; try discriminate.
      now apply Hallowed.
    + intros a Ha. now apply Hallowed, Hin.
Qed.

Lemma monitor_loop_within_allowlist gameWindow allowlist heads (slots : Slots) w :
  allowlist <> [] ->
  (forall a, is_Some (slots !! a) -> a ∈ allowlist) ->
  within_allowlist allowlist (loop gameWindow allowlist heads slots w).
Proof.
  intros Hne. revert slots w.
  induction heads as [|head heads IH]; intros slots w Hslots; cbn.
  - split; [|split; [|exact Hslots]].
    + intros gs a Hin. now apply elem_of_nil in Hin.
    + intros a Hin. now apply elem_of_nil in Hin.
  - pose proof (monitor_tick_within_allowlist gameWindow allowlist head slots w
                  Hne Hslots) as (Hs1 & Hc1 & Hslots1).
    destruct (tick gameWindow allowlist head slots w) as [[slots1 w1] log1].
    cbn [fst snd] in *.
    specialize (IH slots1 w1 Hslots1) as (Hs2 & Hc2 & Hslots2).
    destruct (loop gameWindow allowlist heads slots1 w1) as [[slots2 w2] log2].
    cbn [fst snd] in *. unfold within_allowlist. cbn [fst snd].
    split; [|split; [|exact Hslots2]].
    + intros gs a [?|?]%elem_of_app; eauto.
    + intros a [?|?]%elem_of_app; eauto.
Qed.

(** C7.  With a non-empty allowlist, whatever games the chain reader
    returns at each head, the monitor only ever passes allowlisted
    addresses to [Schedule]; no player is created for any other address and
    no slot exists for one after any number of rounds. *)
Theorem allowlist_restricts_slots gameWindow allowlist heads w0 :
  allowlist <> [] ->
  let r := monitor_loop createPlayer Progress DirFor Release FetchGames
             gameWindow allowlist heads ∅ w0 in
  (forall games a, EvSchedule games ∈ r.2 -> a ∈ games -> a ∈ allowlist)
  /\ (forall a, a ∉ allowlist ->
        (EvCreated a ∉ r.2) /\ r.1.1 !! a = None).
Proof.
  intros Hne. cbn zeta.
  destruct (monitor_loop_within_allowlist gameWindow allowlist heads ∅ w0 Hne)
    as (Hsched & Hcreated & Hslots).
  { intros a [s Hs]. now rewrite lookup_empty in Hs. }
  split; [exact Hsched|].
  intros a Hout. split; [intros Hc; now apply Hout, Hcreated|].
  destruct (_ !! a) eqn:Ha; [|reflexivity].
  exfalso. apply Hout, Hslots. rewrite Ha. eauto.
Qed.
End SchedulerProperties.

(** * The statements at work in the small world *)
Section DemoRuns.
Local Existing Instance Demo.types.
Local Existing Instance Demo.externals.
Local Open Scope string_scope.
Local Open Scope list_scope.

(** A provider whose prestate is "abc", against a chain that holds its
    Keccak-256 digest: the check passes. *)
Lemma ValidateAbsolutePrestate_nil_iff_hash_equal_witness :
  AbsolutePreState Demo.good_trace Demo.ctx (world Demo.s0)
  = (Returned (Demo.abc, None), Demo.tick (world Demo.s0))
  /\ FetchAbsolutePrestateHash Demo.good_loader Demo.ctx (Demo.tick (world Demo.s0))
     = (Returned (Demo.abc_digest, None), Demo.tick (Demo.tick (world Demo.s0)))
  /\ (fst (ValidateAbsolutePrestate Demo.ctx Demo.good_trace Demo.good_loader Demo.s0) = Returned None
      <-> crypto_Keccak256 [Demo.abc] = Demo.abc_digest)
  /\ fst (ValidateAbsolutePrestate Demo.ctx Demo.good_trace Demo.good_loader Demo.s0) = Returned None.
Proof.
  split; [reflexivity|]. split; [reflexivity|].
  pose proof (ValidateAbsolutePrestate_nil_iff_hash_equal
                Demo.ctx Demo.good_trace Demo.good_loader Demo.s0 Demo.abc (Demo.tick (world Demo.s0))
                Demo.abc_digest (Demo.tick (Demo.tick (world Demo.s0)))
                eq_refl eq_refl) as [Hiff _].
  split; [exact Hiff|]. apply Hiff. vm_compute. reflexivity.
Defined.


Lemma prestate_mismatch_demo :
  prestate_mismatch Demo.ctx Demo.good_trace Demo.wrong_loader Demo.s0.
Proof.
  exists Demo.abc, (Demo.tick (world Demo.s0)), Demo.abc,
    (Demo.tick (Demo.tick (world Demo.s0))).
  split; [reflexivity|]. split; [reflexivity|].
  vm_compute. discriminate.
Defined.

Lemma fetch_failure_demo : fetch_failure Demo.ctx Demo.broken_trace Demo.good_loader Demo.s0.
Proof. left. do 3 eexists. reflexivity. Defined.

Lemma mismatch_error_distinct_from_fetch_errors_witness :
  prestate_mismatch Demo.ctx Demo.good_trace Demo.wrong_loader Demo.s0
  /\ fetch_failure Demo.ctx Demo.broken_trace Demo.good_loader Demo.s0
  /\ exists e_mismatch e_fetch,
      fst (ValidateAbsolutePrestate Demo.ctx Demo.good_trace Demo.wrong_loader Demo.s0)
      = Returned (Some e_mismatch)
      /\ fst (ValidateAbsolutePrestate Demo.ctx Demo.broken_trace Demo.good_loader Demo.s0)
         = Returned (Some e_fetch)
      /\ e_mismatch <> e_fetch
      /\ Error e_mismatch <> Error e_fetch
      /\ Error e_mismatch = mismatch_msg
      /\ Unwrap e_mismatch = None
      /\ (exists cause, Unwrap e_fetch = Some cause).
Proof.
  split; [exact prestate_mismatch_demo|].
  split; [exact fetch_failure_demo|].
  exact (mismatch_error_distinct_from_fetch_errors
           Demo.ctx Demo.good_trace Demo.wrong_loader Demo.s0 Demo.ctx Demo.broken_trace Demo.good_loader Demo.s0
           prestate_mismatch_demo fetch_failure_demo).
Defined.

(** The provider fails: one call on record, the loader untouched. *)
Lemma ValidateAbsolutePrestate_provider_first_witness :
  ValidateAbsolutePrestate Demo.ctx Demo.broken_trace Demo.good_loader Demo.s0
  = (Returned (Some (wrapError
                       "failed to get the trace provider's absolute prestate: no trace"
                       (errorString "no trace"))),
     mkSt (Demo.tick (world Demo.s0))
          [(CallAbsolutePreState, Failed (errorString "no trace"))]).
Proof.
  pose proof (ValidateAbsolutePrestate_provider_first
                Demo.ctx Demo.broken_trace Demo.good_loader Demo.s0) as (_ & Hshort & _).
  destruct (Hshort [] (errorString "no trace") (Demo.tick (world Demo.s0)) eq_refl)
    as [Hrun _].
  exact Hrun.
Defined.

(** The monitor loop ends with an error: the scheduler is closed after
    it and the error reaches the caller. *)
Lemma MonitorGame_starts_runs_closes_witness :
  Scheduler_Start (sched Demo.service) Demo.ctx (world Demo.s_loop_fails)
  = (Returned tt, Demo.tick (world Demo.s_loop_fails))
  /\ GameMonitor_MonitorGames (monitor Demo.service) Demo.ctx
       (Demo.tick (world Demo.s_loop_fails))
     = (Returned (Some Demo.loop_error), Demo.tick (Demo.tick (world Demo.s_loop_fails)))
  /\ (exists loop close,
        calls (snd (MonitorGame Demo.service Demo.ctx Demo.s_loop_fails))
        = calls Demo.s_loop_fails ++ [(CallSchedulerStart, Ok);
                                 (CallMonitorGames, loop);
                                 (CallSchedulerClose, close)])
  /\ fst (MonitorGame Demo.service Demo.ctx Demo.s_loop_fails) = Returned (Some Demo.loop_error).
Proof.
  split; [reflexivity|]. split; [reflexivity|].
  pose proof (MonitorGame_starts_runs_closes
                Demo.service Demo.ctx Demo.s_loop_fails tt (Demo.tick (world Demo.s_loop_fails))
                (Returned (Some Demo.loop_error))
                (Demo.tick (Demo.tick (world Demo.s_loop_fails)))
                eq_refl eq_refl) as (Hlog & _ & Hret).
  split; [exact Hlog|].
  exact (Hret None (Demo.tick (Demo.tick (Demo.tick (world Demo.s_loop_fails)))) eq_refl).
Defined.



(** A pool of two, three ready steps: two execute, the third waits and no
    pool slot will take it. *)
Lemma executing_never_exceeds_MaxConcurrency_witness :
  WorkerPool.run SchedDemo.busy_pool_history (WorkerPool.init 2)
  = Some SchedDemo.busy_pool
  /\ length (WorkerPool.executing SchedDemo.busy_pool) <= 2
  /\ (forall i, WorkerPool.step (WorkerPool.Dispatch i) SchedDemo.busy_pool = None).
Proof.
  split; [reflexivity|].
  destruct (executing_never_exceeds_MaxConcurrency
              2 SchedDemo.busy_pool_history SchedDemo.busy_pool eq_refl)
    as (Hle & _ & Hfull & _).
  split; [exact Hle|]. exact (Hfull eq_refl).
Defined.

(** The chain reader returns games 5, 7 and 9 at every head; only 5 is on
    the allowlist. *)
Lemma allowlist_restricts_slots_witness :
  [5%N] <> []
  /\ (7%N ∉ [5%N])
  /\ (SchedulerModel.EvCreated 7%N ∉ SchedDemo.allowlisted_run.2)
  /\ SchedDemo.allowlisted_run.1.1 !! 7%N = None.
Proof.
  assert (Hne : [5%N] <> []) by discriminate.
  assert (Hout : 7%N ∉ [5%N]).
  { intros [=]%list_elem_of_singleton. }
  split; [exact Hne|]. split; [exact Hout|].
  destruct (allowlist_restricts_slots
              SchedDemo.createPlayer SchedDemo.Progress SchedDemo.DirFor
              SchedDemo.Release SchedDemo.FetchGames
              100 [5%N] [200; 201]%Z 0 Hne) as [_ Hslots].
  exact (Hslots 7%N Hout).
Defined.

(** The scenario of a game in scope for two ticks and absent at the third:
    one player created at the first tick, [Progress] invoked at the first
    and the second, the slot released at the third. *)
Example three_ticks_of_game_7 :
  SchedDemo.after_tick1.2
  = [SchedulerModel.EvCreated 5%N; SchedulerModel.EvCreated 7%N;
     SchedulerModel.EvProgress 5%N None;
     SchedulerModel.EvProgress 7%N (Some (errorString "rpc timeout"))]
  /\ SchedDemo.after_tick2.2
     = [SchedulerModel.EvProgress 5%N None;
        SchedulerModel.EvProgress 7%N (Some (errorString "rpc timeout"))]
  /\ SchedDemo.after_tick3.2
     = [SchedulerModel.EvProgress 5%N None; SchedulerModel.EvReleased 7%N]
  /\ SchedDemo.after_tick3.1.1 !! 7%N = None.
Proof. repeat split; vm_compute; reflexivity. Qed.

(** Game 7 fails its step in the first tick; it is still in the target of
    the second. *)
Lemma progress_error_retains_slot_witness :
  SchedulerModel.EvProgress 7%N (Some (errorString "rpc timeout"))
    ∈ SchedDemo.after_tick1.2
  /\ 7%N ∈ [5%N; 7%N]
  /\ is_Some (SchedDemo.after_tick1.1.1 !! 7%N)
  /\ (exists err', SchedulerModel.EvProgress 7%N err' ∈ SchedDemo.after_tick2.2)
  /\ is_Some (SchedDemo.after_tick2.1.1 !! 7%N)
  /\ (SchedulerModel.EvCreated 7%N ∉ SchedDemo.after_tick2.2).
Proof.
  assert (Herr : SchedulerModel.EvProgress 7%N (Some (errorString "rpc timeout"))
                   ∈ SchedDemo.after_tick1.2).
  { apply list_elem_of_In. vm_compute. tauto. }
  assert (Hin : 7%N ∈ [5%N; 7%N]).
  { apply list_elem_of_In. cbn. tauto. }
  destruct (progress_error_retains_slot
              SchedDemo.createPlayer SchedDemo.Progress SchedDemo.DirFor
              SchedDemo.Release [5; 7]%N [5; 7]%N SchedDemo.no_slots 0
              7%N (errorString "rpc timeout") Herr)
    as (Hkept & _ & Hnext & _).
  destruct (Hnext Hin) as (Hagain & Hslot & _ & _ & Hsame & _).
  repeat split; assumption.
Defined.
End DemoRuns.

(** * Further runs, in the world where anything may fail *)
Section LabRuns.
Local Existing Instance Lab.types.
Local Existing Instance Lab.externals.
Local Open Scope string_scope.
Local Open Scope list_scope.

(** The loader fails while holding the right digest: the failure wins. *)
Lemma ValidateAbsolutePrestate_loader_error_wrapped_witness :
  AbsolutePreState Lab.abc_trace Lab.ctx (world (Lab.start Lab.calm))
  = (Returned (Demo.abc, None), Lab.tick Lab.calm)
  /\ FetchAbsolutePrestateHash Lab.failing_loader Lab.ctx (Lab.tick Lab.calm)
     = (Returned (Demo.abc_digest, Some (errorString "execution reverted")),
        Lab.tick (Lab.tick Lab.calm))
  /\ crypto_Keccak256 [Demo.abc] = Demo.abc_digest
  /\ exists err,
      ValidateAbsolutePrestate Lab.ctx Lab.abc_trace Lab.failing_loader
        (Lab.start Lab.calm)
      = (Returned (Some err),
         mkSt (Lab.tick (Lab.tick Lab.calm))
              (calls (Lab.start Lab.calm)
               ++ [(CallAbsolutePreState, Ok);
                   (CallFetchAbsolutePrestateHash,
                    Failed (errorString "execution reverted"))]))
      /\ Error err = ("failed to get the onchain absolute prestate: "
                      ++ Error (errorString "execution reverted"))%string
      /\ Unwrap err = Some (errorString "execution reverted").
Proof.
  split; [reflexivity|]. split; [reflexivity|].
  split; [vm_compute; reflexivity|].
  exact (ValidateAbsolutePrestate_loader_error_wrapped
           Lab.ctx Lab.abc_trace Lab.failing_loader (Lab.start Lab.calm)
           Demo.abc (Lab.tick Lab.calm) Demo.abc_digest
           (errorString "execution reverted") (Lab.tick (Lab.tick Lab.calm))
           eq_refl eq_refl).
Defined.


Lemma ValidateAbsolutePrestate_nil_only_if_hash_equal_witness :
  fst (ValidateAbsolutePrestate Lab.ctx Lab.abc_trace Lab.abc_loader
         (Lab.start Lab.calm)) = Returned None
  /\ exists p w1 h w2,
      AbsolutePreState Lab.abc_trace Lab.ctx (world (Lab.start Lab.calm))
      = (Returned (p, None), w1)
      /\ FetchAbsolutePrestateHash Lab.abc_loader Lab.ctx w1
         = (Returned (h, None), w2)
      /\ h = Keccak.keccak256 p
      /\ length h = 32
      /\ snd (ValidateAbsolutePrestate Lab.ctx Lab.abc_trace Lab.abc_loader
                (Lab.start Lab.calm))
         = mkSt w2 (calls (Lab.start Lab.calm)
                    ++ [(CallAbsolutePreState, Ok);
                        (CallFetchAbsolutePrestateHash, Ok)]).
Proof.
  assert (Hnil : fst (ValidateAbsolutePrestate Lab.ctx Lab.abc_trace
                        Lab.abc_loader (Lab.start Lab.calm)) = Returned None)
    by (vm_compute; reflexivity).
  split; [exact Hnil|].
  exact (ValidateAbsolutePrestate_nil_only_if_hash_equal
           Lab.ctx Lab.abc_trace Lab.abc_loader (Lab.start Lab.calm) Hnil).
Defined.

(** [Start] panics: one call on record. *)
Lemma MonitorGame_start_panic_closes_nothing_witness :
  Scheduler_Start (sched Lab.service) Lab.ctx (world (Lab.start Lab.start_panics))
  = (Panicked "already started", Lab.tick Lab.start_panics)
  /\ MonitorGame Lab.service Lab.ctx (Lab.start Lab.start_panics)
     = (Panicked "already started",
        mkSt (Lab.tick Lab.start_panics)
             (calls (Lab.start Lab.start_panics)
              ++ [(CallSchedulerStart, Panic "already started")])).
Proof.
  assert (Hstart :
            Scheduler_Start (sched Lab.service) Lab.ctx
              (world (Lab.start Lab.start_panics))
            = (Panicked "already started", Lab.tick Lab.start_panics))
    by (vm_compute; reflexivity).
  split; [exact Hstart|].
  exact (MonitorGame_start_panic_closes_nothing _ _ _ _ _ Hstart).
Defined.

(** The loop ends with an error, then [Close] panics: the panic is what
    the caller sees. *)
Lemma MonitorGame_close_panic_overrides_witness :
  Scheduler_Start (sched Lab.service) Lab.ctx (world (Lab.start Lab.close_panics))
  = (Returned tt, Lab.tick Lab.close_panics)
  /\ GameMonitor_MonitorGames (monitor Lab.service) Lab.ctx
       (Lab.tick Lab.close_panics)
     = (Returned (Some (errorString "subscription closed")),
        Lab.tick (Lab.tick Lab.close_panics))
  /\ Scheduler_Close (sched Lab.service) (Lab.tick (Lab.tick Lab.close_panics))
     = (Panicked "close of closed channel",
        Lab.tick (Lab.tick (Lab.tick Lab.close_panics)))
  /\ fst (MonitorGame Lab.service Lab.ctx (Lab.start Lab.close_panics))
     = Panicked "close of closed channel".
Proof.
  assert (Hstart :
            Scheduler_Start (sched Lab.service) Lab.ctx
              (world (Lab.start Lab.close_panics))
            = (Returned tt, Lab.tick Lab.close_panics)) by reflexivity.
  assert (Hloop :
            GameMonitor_MonitorGames (monitor Lab.service) Lab.ctx
              (Lab.tick Lab.close_panics)
            = (Returned (Some (errorString "subscription closed")),
               Lab.tick (Lab.tick Lab.close_panics))) by reflexivity.
  assert (Hclose :
            Scheduler_Close (sched Lab.service)
              (Lab.tick (Lab.tick Lab.close_panics))
            = (Panicked "close of closed channel",
               Lab.tick (Lab.tick (Lab.tick Lab.close_panics)))) by reflexivity.
  split; [exact Hstart|]. split; [exact Hloop|]. split; [exact Hclose|].
  destruct (MonitorGame_close_panic_overrides _ _ _ _ _ _ _ _ _
              Hstart Hloop Hclose) as [Hpanic _].
  exact Hpanic.
Defined.

(** Nothing fails and both servers are enabled. *)
Lemma NewService_success_record_witness :
  NewService Lab.ctx Lab.log Lab.cfg (Lab.start Lab.calm)
  = (Returned (Some Lab.service, None),
     snd (NewService Lab.ctx Lab.log Lab.cfg (Lab.start Lab.calm)))
  /\ calls (snd (NewService Lab.ctx Lab.log Lab.cfg (Lab.start Lab.calm)))
     = calls (Lab.start Lab.calm) ++ dialled ++ pprof_calls Lab.cfg
       ++ metrics_calls Lab.cfg ++ [(CallNewDisputeGameFactory, Ok)]
       ++ construction_calls Lab.cfg.
Proof.
  assert (Hrun : NewService Lab.ctx Lab.log Lab.cfg (Lab.start Lab.calm)
                 = (Returned (Some Lab.service, None),
                    snd (NewService Lab.ctx Lab.log Lab.cfg (Lab.start Lab.calm))))
    by (vm_compute; reflexivity).
  split; [exact Hrun|].
  exact (NewService_success_record _ _ _ _ _ _ Hrun).
Defined.

(** The factory cannot be bound, the servers are enabled. *)
Lemma NewService_failure_record_witness :
  NewService Lab.ctx Lab.log Lab.cfg (Lab.start Lab.no_factory)
  = (Returned (None, Some Lab.bind_failure),
     snd (NewService Lab.ctx Lab.log Lab.cfg (Lab.start Lab.no_factory)))
  /\ @None Service = None
  /\ exists cause,
      Unwrap Lab.bind_failure = Some cause
      /\ (calls (snd (NewService Lab.ctx Lab.log Lab.cfg (Lab.start Lab.no_factory)))
          = calls (Lab.start Lab.no_factory)
            ++ [(CallNewMetrics, Ok); (CallNewSimpleTxManager, Failed cause)]
          \/ calls (snd (NewService Lab.ctx Lab.log Lab.cfg (Lab.start Lab.no_factory)))
             = calls (Lab.start Lab.no_factory)
               ++ [(CallNewMetrics, Ok); (CallNewSimpleTxManager, Ok);
                   (CallDialEthClientWithTimeout, Failed cause)]
          \/ calls (snd (NewService Lab.ctx Lab.log Lab.cfg (Lab.start Lab.no_factory)))
             = calls (Lab.start Lab.no_factory) ++ dialled ++ pprof_calls Lab.cfg
               ++ metrics_calls Lab.cfg
               ++ [(CallNewDisputeGameFactory, Failed cause)]).
Proof.
  assert (Hrun : NewService Lab.ctx Lab.log Lab.cfg (Lab.start Lab.no_factory)
                 = (Returned (None, Some Lab.bind_failure),
                    snd (NewService Lab.ctx Lab.log Lab.cfg
                           (Lab.start Lab.no_factory))))
    by (vm_compute; reflexivity).
  split; [exact Hrun|].
  exact (NewService_failure_record _ _ _ _ _ _ _ Hrun).
Defined.

(** The signer cannot be set up. *)
Lemma NewService_error_message_witness :
  NewService Lab.ctx Lab.log Lab.cfg (Lab.start Lab.no_signer)
  = (Returned (None, Some Lab.signer_failure),
     snd (NewService Lab.ctx Lab.log Lab.cfg (Lab.start Lab.no_signer)))
  /\ exists new cause,
      calls (snd (NewService Lab.ctx Lab.log Lab.cfg (Lab.start Lab.no_signer)))
      = calls (Lab.start Lab.no_signer) ++ new
      /\ ((In (CallNewSimpleTxManager, Failed cause) new
           /\ Error Lab.signer_failure
              = "failed to create the transaction manager: " ++ Error cause)
          \/ (In (CallDialEthClientWithTimeout, Failed cause) new
              /\ Error Lab.signer_failure = "failed to dial L1: " ++ Error cause)
          \/ (In (CallNewDisputeGameFactory, Failed cause) new
              /\ Error Lab.signer_failure
                 = "failed to bind the fault dispute game factory contract: "
                   ++ Error cause))%string.
Proof.
  assert (Hrun : NewService Lab.ctx Lab.log Lab.cfg (Lab.start Lab.no_signer)
                 = (Returned (None, Some Lab.signer_failure),
                    snd (NewService Lab.ctx Lab.log Lab.cfg
                           (Lab.start Lab.no_signer))))
    by (vm_compute; reflexivity).
  split; [exact Hrun|].
  exact (NewService_error_message _ _ _ _ _ _ _ Hrun).
Defined.

(** The factory cannot be bound: both servers were started all the same. *)
Lemma NewService_servers_started_witness :
  NewService Lab.ctx Lab.log Lab.cfg (Lab.start Lab.no_factory)
  = (Returned (None, Some Lab.bind_failure),
     snd (NewService Lab.ctx Lab.log Lab.cfg (Lab.start Lab.no_factory)))
  /\ exists new,
      calls (snd (NewService Lab.ctx Lab.log Lab.cfg (Lab.start Lab.no_factory)))
      = calls (Lab.start Lab.no_factory) ++ new
      /\ (In (CallGo GoPprofServer, Ok) new
          <-> pprof_Enabled (cfg_PprofConfig Lab.cfg) = true
              /\ In (CallDialEthClientWithTimeout, Ok) new)
      /\ (In (CallGo GoMetricsServer, Ok) new
          <-> metrics_Enabled (cfg_MetricsConfig Lab.cfg) = true
              /\ In (CallDialEthClientWithTimeout, Ok) new)
      /\ (In (CallStartBalanceMetrics, Ok) new
          <-> In (CallGo GoMetricsServer, Ok) new).
Proof.
  assert (Hrun : NewService Lab.ctx Lab.log Lab.cfg (Lab.start Lab.no_factory)
                 = (Returned (None, Some Lab.bind_failure),
                    snd (NewService Lab.ctx Lab.log Lab.cfg
                           (Lab.start Lab.no_factory))))
    by (vm_compute; reflexivity).
  split; [exact Hrun|].
  exact (NewService_servers_started _ _ _ _ _ _ Hrun).
Defined.


(** The port is taken: each goroutine logs the error and ends. *)
Lemma server_goroutines_log_failure_witness :
  fst (pprof_goroutine Lab.ctx Lab.log (cfg_PprofConfig Lab.cfg)
         (Lab.start Lab.port_taken)) = Returned tt
  /\ exists new,
      calls (snd (pprof_goroutine Lab.ctx Lab.log (cfg_PprofConfig Lab.cfg)
                    (Lab.start Lab.port_taken)))
      = calls (Lab.start Lab.port_taken) ++ new
      /\ exists res, In (CallLoggerError "error starting pprof", res) new.
Proof.
  split; [reflexivity|].
  destruct (server_goroutines_log_failure
              Lab.ctx Lab.log Lab.metrics_handle (cfg_PprofConfig Lab.cfg)
              (cfg_MetricsConfig Lab.cfg) (Lab.start Lab.port_taken))
    as [(new & Hnew & Hiff & _) _].
  exists new. split; [exact Hnew|]. apply Hiff.
  exists (errorString "address already in use"), (Lab.tick Lab.port_taken).
  reflexivity.
Defined.
End LabRuns.
